(** * Page manipulation engine of [@pdfme/manipulator]

    A shallow embedding of [packages/manipulator/src/index.ts]: the nine
    exported operations ([merge], [mergeAdvanced], [mergeWithTemplates],
    [split], [remove], [insert], [rotate], [move], [organize]) as functions
    over an ordered list of pages, with thrown errors as a [Result].

    JavaScript numbers that hold page indices, positions and degrees are
    integers here ([Z]); [%] is the truncating remainder [Z.rem]. *)

From Stdlib Require Import ZArith List Lia Bool Permutation Sorted.
Import ListNotations.
Open Scope Z_scope.

Set Implicit Arguments.

(** ** Thrown errors *)

(** One constructor per [throw new Error(...)] message of [index.ts];
    [LibError] stands for a failure raised inside [@pdfme/pdf-lib]
    (an index outside the range the library asserts) and [RenderError]
    for a failure of the template renderer. *)
Inductive Error : Type :=
| ErrNoItems              (* At least one item is required for merging *)
| ErrInvalidPageIndex     (* Invalid page index. Pages must be between ... *)
| ErrNoTemplates          (* At least one template is required *)
| ErrNoRanges             (* At least one range is required for splitting *)
| ErrInvalidRange         (* Invalid range: start=, end=, total pages= *)
| ErrNoPagesForRemoval    (* At least one page number is required for removal *)
| ErrInvalidPageNumber    (* Invalid page number: ... *)
| ErrInvalidPosition      (* Invalid position: must be between 0 and n *)
| ErrRotationNotMultiple  (* Rotation degrees must be a multiple of 90 *)
| ErrNoPagesToRotate      (* PDF has no pages to rotate *)
| ErrNoActions            (* At least one action is required *)
| ErrUnknownAction        (* Unknown action type *)
| LibError
| RenderError.

(** The categories of the error taxonomy. *)
Inductive Category : Type :=
| EmptyInput | InvalidPageIndex | InvalidRange | InvalidPosition
| InvalidRotation | UnknownActionType | OtherError.

Definition category (e : Error) : Category :=
  match e with
  | ErrNoItems | ErrNoTemplates | ErrNoRanges
  | ErrNoPagesForRemoval | ErrNoActions => EmptyInput
  | ErrInvalidPageIndex | ErrInvalidPageNumber => InvalidPageIndex
  | ErrInvalidRange => InvalidRange
  | ErrInvalidPosition => InvalidPosition
  | ErrRotationNotMultiple => InvalidRotation
  | ErrUnknownAction => UnknownActionType
  | ErrNoPagesToRotate | LibError | RenderError => OtherError
  end.

Inductive Result (A : Type) : Type :=
| Ok (a : A)
| Throw (e : Error).

Arguments Ok {A} a.
Arguments Throw {A} e.

Definition bind {A B : Type} (r : Result A) (k : A -> Result B) : Result B :=
  match r with
  | Ok a => k a
  | Throw e => Throw e
  end.

Notation "x <- e ;; k" := (bind e (fun x => k))
  (at level 61, e at next level, right associativity).

Definition isOk {A : Type} (r : Result A) : bool :=
  match r with Ok _ => true | Throw _ => false end.

(** ** Pages and documents *)

(** A page is opaque but for its rotation; [content] identifies it. *)
Record Page : Type := mkPage { content : Z; rotation : Z }.

Definition setRotation (page : Page) (angle : Z) : Page :=
  {| content := content page; rotation := angle |}.

(** The blank page the library adds when it serializes a document that has
    no page. *)
Definition blankPage : Page := {| content := 0; rotation := 0 |}.

(** Modelled from the spec: the Document Codec is an external collaborator
    that parses a byte buffer into an ordered page sequence and serializes
    it back; a buffer is identified with the page sequence it encodes. *)
Definition Bytes : Type := list Page.

(** The in-memory document ([PDFDocument] of [@pdfme/pdf-lib]) as far as
    [index.ts] uses it.  The library is not among the sources at hand. *)
Module PDFDocument.

(** Modelled from the spec: a Document is an ordered, 0-indexed, gapless
    sequence of pages. *)
Definition t : Type := list Page.

(** Modelled from the spec: a newly created destination is empty. *)
Definition create : t := [].

(** Modelled from the spec: the codec's parse, see [Bytes]. *)
Definition load (pdf : Bytes) : t := pdf.

(** Modelled from the spec: the codec's serialization, see [Bytes].  Called
    without options, as [index.ts] does everywhere, the library first adds
    one blank page to a document that has no page. *)
Definition save (doc : t) : Bytes :=
  match doc with
  | [] => [blankPage]
  | _ => doc
  end.

(** Modelled from the spec: the page count of the sequence. *)
Definition getPageCount (doc : t) : Z := Z.of_nat (length doc).

(** Modelled from the spec: the pages, in order. *)
Definition getPages (doc : t) : list Page := doc.

(** Modelled from the spec: the indices [0 .. pageCount - 1]. *)
Definition getPageIndices (doc : t) : list Z :=
  map Z.of_nat (seq 0 (length doc)).

Definition inRange (i lo hi : Z) : bool := (lo <=? i) && (i <=? hi).

(** Modelled from the spec: any index [i] of a page must satisfy
    [0 <= i < pageCount]; the library throws otherwise. *)
Definition getPage (doc : t) (index : Z) : Result Page :=
  if inRange index 0 (getPageCount doc - 1) then
    match nth_error doc (Z.to_nat index) with
    | Some p => Ok p
    | None => Throw LibError
    end
  else Throw LibError.

(** Modelled from the spec: copying pages creates new references to the
    pages at the given indices, in the order given; the source is
    unaffected. *)
Fixpoint copyPages (src : t) (indices : list Z) : Result (list Page) :=
  match indices with
  | [] => Ok []
  | i :: rest =>
      p <- getPage src i ;;
      ps <- copyPages src rest ;;
      Ok (p :: ps)
  end.

(** Modelled from the spec: adding a page places it at the end (index =
    current page count). *)
Definition addPage (doc : t) (page : Page) : t := doc ++ [page].

(** Modelled from the spec: inserting at an index in [0, pageCount] places
    the page before the page that was at that index; the library throws on
    an index outside that range. *)
Definition insertPage (doc : t) (index : Z) (page : Page) : Result t :=
  if inRange index 0 (getPageCount doc) then
    Ok (firstn (Z.to_nat index) doc ++ page :: skipn (Z.to_nat index) doc)
  else Throw LibError.

(** Modelled from the spec: removing the page at an index in
    [0, pageCount - 1] shifts the later pages down by one; the library throws
    on an index outside that range. *)
Definition removePage (doc : t) (index : Z) : Result t :=
  if inRange index 0 (getPageCount doc - 1) then
    Ok (firstn (Z.to_nat index) doc ++ skipn (S (Z.to_nat index)) doc)
  else Throw LibError.

End PDFDocument.

Import PDFDocument.

(** [Array.from({ length: n }, (_, i) => i + start)]. *)
Definition arrayFrom (n start : Z) : list Z :=
  map (fun i => Z.of_nat i + start) (seq 0 (Z.to_nat n)).

(** [pages.forEach((page) => doc.addPage(page))]. *)
Definition addPages (doc : t) (pages : list Page) : t :=
  fold_left addPage pages doc.

(** [Array.prototype.sort(cmp)]: a stable sort; [cmp a b <= 0] keeps [a]
    before [b]. *)
Section Sort.
Variable A : Type.
Variable cmp : A -> A -> Z.

Fixpoint sortInsert (x : A) (l : list A) : list A :=
  match l with
  | [] => [x]
  | y :: l' => if cmp x y <=? 0 then x :: y :: l' else y :: sortInsert x l'
  end.

Fixpoint sort (l : list A) : list A :=
  match l with
  | [] => []
  | x :: l' => sortInsert x (sort l')
  end.
End Sort.

(** ** mergeAdvanced, mergeWithTemplates, merge *)

Inductive Position : Type :=
| PStart
| PEnd
| PIndex (p : Z).

Section Engine.

(** The template renderer ([generate] of [@pdfme/generator]) is an external
    collaborator: it is a parameter of the engine. *)
Variable Template : Type.
Variable Input : Type.
Variable emptyInput : Input.                     (* [{}] *)
Variable generate : Template -> list Input -> Result Bytes.

Inductive MergeItem : Type :=
| PdfItem (data : Bytes) (pages : option (list Z))
| TemplateItem (data : Template) (inputs : option (list Input)).

Record MergeOptions : Type := mkOptions { position : option Position }.

Definition noOptions : MergeOptions := {| position := None |}.

(** The pages one item contributes (body of the [for (const item of items)]
    loop). *)
Definition itemPages (item : MergeItem) : Result (list Page) :=
  match item with
  | PdfItem pdfData pages =>
      let srcDoc := load pdfData in
      let pageIndices :=
        match pages with Some l => l | None => getPageIndices srcDoc end in
      let maxPageIndex := getPageCount srcDoc - 1 in
      if existsb (fun idx => (idx <? 0) || (idx >? maxPageIndex)) pageIndices
      then Throw ErrInvalidPageIndex
      else copyPages srcDoc pageIndices
  | TemplateItem template inputs =>
      let inputs := match inputs with Some l => l | None => [emptyInput] end in
      templatePdf <- generate template inputs ;;
      let templateDoc := load templatePdf in
      copyPages templateDoc (getPageIndices templateDoc)
  end.

Fixpoint collectPages (items : list MergeItem) (allPages : list Page)
  : Result (list Page) :=
  match items with
  | [] => Ok allPages
  | item :: rest =>
      copiedPages <- itemPages item ;;
      collectPages rest (allPages ++ copiedPages)
  end.

(** [allPages.forEach((page, index) => doc.insertPage(insertIndex + index, page))],
    [at_] being [insertIndex + index]. *)
Fixpoint insertPages (doc : t) (at_ : Z) (pages : list Page) : Result t :=
  match pages with
  | [] => Ok doc
  | page :: rest =>
      doc' <- insertPage doc at_ page ;;
      insertPages doc' (at_ + 1) rest
  end.

(** [Math.min(Math.max(0, position), currentPageCount)]. *)
Definition insertIndexOf (position currentPageCount : Z) : Z :=
  Z.min (Z.max 0 position) currentPageCount.

Definition mergeAdvanced (items : list MergeItem) (options : MergeOptions)
  : Result Bytes :=
  match items with
  | [] => Throw ErrNoItems
  | _ =>
      let position :=
        match position options with Some p => p | None => PEnd end in
      let mergedPdf := create in
      allPages <- collectPages items [] ;;
      match position with
      | PStart => Ok (save (addPages mergedPdf allPages))
      | PEnd => Ok (save (addPages mergedPdf allPages))
      | PIndex position =>
          let currentPageCount := getPageCount mergedPdf in
          let insertIndex := insertIndexOf position currentPageCount in
          mergedPdf' <- insertPages mergedPdf insertIndex allPages ;;
          Ok (save mergedPdf')
      end
  end.

Record TemplateEntry : Type := mkEntry {
  entryTemplate : Template;
  entryInputs : option (list Input);
  entryPosition : option Position
}.

Fixpoint mergeTemplatesLoop (currentPdf : Bytes) (templates : list TemplateEntry)
  : Result Bytes :=
  match templates with
  | [] => Ok currentPdf
  | e :: rest =>
      let inputs :=
        match entryInputs e with Some l => l | None => [emptyInput] end in
      let position :=
        match entryPosition e with Some p => p | None => PEnd end in
      let items :=
        [ PdfItem currentPdf None;
          TemplateItem (entryTemplate e) (Some inputs) ] in
      currentPdf' <- mergeAdvanced items {| position := Some position |} ;;
      mergeTemplatesLoop currentPdf' rest
  end.

Definition mergeWithTemplates (basePdf : Bytes) (templates : list TemplateEntry)
  : Result Bytes :=
  match templates with
  | [] => Throw ErrNoTemplates
  | _ => mergeTemplatesLoop basePdf templates
  end.

Definition merge (pdfs : list Bytes) (options : MergeOptions) : Result Bytes :=
  let items := map (fun pdf => PdfItem pdf None) pdfs in
  mergeAdvanced items options.

End Engine.

Arguments PdfItem {Template Input} data pages.

(** ** split *)

Record Range : Type := mkRange { rangeStart : option Z; rangeEnd : option Z }.

Fixpoint splitLoop (originalPdf : t) (numPages : Z) (ranges : list Range)
  (result : list Bytes) : Result (list Bytes) :=
  match ranges with
  | [] => Ok result
  | r :: rest =>
      let start := match rangeStart r with Some s => s | None => 0 end in
      let end_ := match rangeEnd r with Some e => e | None => numPages - 1 end in
      if (start <? 0) || (end_ >=? numPages) || (start >? end_) then
        Throw ErrInvalidRange
      else
        let newPdf := create in
        pages <- copyPages originalPdf (arrayFrom (end_ - start + 1) start) ;;
        let newPdf := addPages newPdf pages in
        splitLoop originalPdf numPages rest (result ++ [save newPdf])
  end.

Definition split (pdf : Bytes) (ranges : list Range) : Result (list Bytes) :=
  match ranges with
  | [] => Throw ErrNoRanges
  | _ =>
      let originalPdf := load pdf in
      let numPages := Z.of_nat (length (getPages originalPdf)) in
      splitLoop originalPdf numPages ranges []
  end.

(** ** remove *)

(** [pages.forEach((pageIndex) => pdfDoc.removePage(pageIndex))]. *)
Fixpoint removePages (pdfDoc : t) (pages : list Z) : Result t :=
  match pages with
  | [] => Ok pdfDoc
  | pageIndex :: rest =>
      pdfDoc' <- removePage pdfDoc pageIndex ;;
      removePages pdfDoc' rest
  end.

Definition descending (a b : Z) : Z := b - a.

Definition remove (pdf : Bytes) (pages : list Z) : Result Bytes :=
  match pages with
  | [] => Throw ErrNoPagesForRemoval
  | _ =>
      let pdfDoc := load pdf in
      let numPages := getPageCount pdfDoc in
      if existsb (fun page => (page <? 0) || (page >=? numPages)) pages then
        Throw ErrInvalidPageNumber
      else
        pdfDoc' <- removePages pdfDoc (sort descending pages) ;;
        Ok (save pdfDoc')
  end.

(** ** insert *)

Record InsertOp : Type := mkInsert { insPdf : Bytes; insPosition : Z }.

Definition byPosition (a b : InsertOp) : Z := insPosition a - insPosition b.

Fixpoint insertLoop (currentPdf : Bytes) (offset : Z) (inserts : list InsertOp)
  : Result Bytes :=
  match inserts with
  | [] => Ok currentPdf
  | ins :: rest =>
      let actualPos := insPosition ins + offset in
      let basePdfDoc := load currentPdf in
      let insertDoc := load (insPdf ins) in
      let numPages := getPageCount basePdfDoc in
      if (actualPos <? 0) || (actualPos >? numPages) then
        Throw ErrInvalidPosition
      else
        let newPdfDoc := create in
        newPdfDoc <-
          (if actualPos >? 0 then
             beforePages <- copyPages basePdfDoc (arrayFrom actualPos 0) ;;
             Ok (addPages newPdfDoc beforePages)
           else Ok newPdfDoc) ;;
        insertedPages <- copyPages insertDoc (getPageIndices insertDoc) ;;
        let newPdfDoc := addPages newPdfDoc insertedPages in
        newPdfDoc <-
          (if actualPos <? numPages then
             afterPages <-
               copyPages basePdfDoc (arrayFrom (numPages - actualPos) actualPos) ;;
             Ok (addPages newPdfDoc afterPages)
           else Ok newPdfDoc) ;;
        insertLoop (save newPdfDoc) (offset + getPageCount insertDoc) rest
  end.

Definition insert (basePdf : Bytes) (inserts : list InsertOp) : Result Bytes :=
  currentPdf <- insertLoop basePdf 0 (sort byPosition inserts) ;;
  let pdfDoc := load currentPdf in
  Ok (save pdfDoc).

(** ** rotate *)

(** Modelled from the spec: [page.setRotation({ type: Degrees, angle })] of
    the library replaces the page's rotation attribute, which is a multiple
    of 90 degrees; the library throws on another angle. *)
Definition pageSetRotation (page : Page) (angle : Z) : Result Page :=
  if Z.rem angle 90 =? 0 then Ok (setRotation page angle) else Throw LibError.

(** [const page = pages[pageNum]; if (page) page.setRotation(...)]: the page
    object is shared with the document, so the document sees the update. *)
Definition rotatePageAt (pages : list Page) (pageNum angle : Z) : Result (list Page) :=
  if pageNum <? 0 then Ok pages
  else
    match nth_error pages (Z.to_nat pageNum) with
    | Some page =>
        page' <- pageSetRotation page angle ;;
        Ok (firstn (Z.to_nat pageNum) pages ++ page' :: skipn (S (Z.to_nat pageNum)) pages)
    | None => Ok pages
    end.

Fixpoint rotatePages (pages : list Page) (pagesToRotate : list Z) (angle : Z)
  : Result (list Page) :=
  match pagesToRotate with
  | [] => Ok pages
  | pageNum :: rest =>
      pages' <- rotatePageAt pages pageNum angle ;;
      rotatePages pages' rest angle
  end.

Definition normalizeDegrees (degrees : Z) : Z :=
  Z.rem (Z.rem degrees 360 + 360) 360.

Definition rotate (pdf : Bytes) (degrees : Z) (pageNumbers : option (list Z))
  : Result Bytes :=
  if negb (Z.rem degrees 90 =? 0) then Throw ErrRotationNotMultiple
  else
    let pdfDoc := load pdf in
    let pages := getPages pdfDoc in
    match pages with
    | [] => Throw ErrNoPagesToRotate
    | _ =>
        let normalizedDegrees := normalizeDegrees degrees in
        if negb (Z.rem normalizedDegrees 90 =? 0) then Throw ErrRotationNotMultiple
        else
          let len := Z.of_nat (length pages) in
          if match pageNumbers with
             | Some l => existsb (fun page => (page <? 0) || (page >=? len)) l
             | None => false
             end
          then Throw ErrInvalidPageNumber
          else
            let pagesToRotate :=
              match pageNumbers with
              | Some l => l
              | None => map Z.of_nat (seq 0 (length pages))
              end in
            pages' <- rotatePages pages pagesToRotate (Z.rem normalizedDegrees 360) ;;
            Ok (save pages')
    end.

(** ** move *)

Definition move (pdf : Bytes) (from to : Z) : Result Bytes :=
  let pdfDoc := load pdf in
  let currentPageCount := getPageCount pdfDoc in
  if (from <? 0) || (from >=? currentPageCount)
     || (to <? 0) || (to >=? currentPageCount) then
    Throw ErrInvalidPageNumber
  else if from =? to then Ok (save pdfDoc)
  else
    page <- getPage pdfDoc from ;;
    pdfDoc' <- removePage pdfDoc from ;;
    let adjustedTo := if from <? to then to - 1 else to in
    pdfDoc'' <- insertPage pdfDoc' adjustedTo page ;;
    Ok (save pdfDoc'').

(** ** organize *)

Inductive OrganizeAction : Type :=
| ActRemove (position : Z)
| ActInsert (pdf : Bytes) (position : Z)
| ActReplace (pdf : Bytes) (position : Z)
| ActRotate (position degrees : Z)
| ActMove (from to : Z).

Fixpoint organizeLoop (currentPdf : t) (actions : list OrganizeAction) : Result t :=
  match actions with
  | [] => Ok currentPdf
  | action :: rest =>
      let currentBuffer := save currentPdf in
      next <-
        match action with
        | ActRemove position => remove currentBuffer [position]
        | ActInsert pdf position =>
            insert currentBuffer [ {| insPdf := pdf; insPosition := position |} ]
        | ActReplace pdf position =>
            withoutTarget <- remove currentBuffer [position] ;;
            insert withoutTarget [ {| insPdf := pdf; insPosition := position |} ]
        | ActRotate position degrees => rotate currentBuffer degrees (Some [position])
        | ActMove from to => move currentBuffer from to
        end ;;
      organizeLoop (load next) rest
  end.

Definition organize (pdf : Bytes) (actions : list OrganizeAction) : Result Bytes :=
  match actions with
  | [] => Throw ErrNoActions
  | _ =>
      currentPdf <- organizeLoop (load pdf) actions ;;
      Ok (save currentPdf)
  end.


(** ** Sample documents and a sample renderer *)

Definition pageOf (c : Z) : Page := {| content := c; rotation := 0 |}.

Definition docOf (cs : list Z) : Bytes := map pageOf cs.

(** A renderer yielding one page per input record; the template is the
    content written on each page. *)
Definition renderEach (template : Z) (inputs : list unit) : Result Bytes :=
  Ok (map (fun _ => pageOf template) inputs).


(** ** Reference descriptions of results *)

(** The pages of [doc] whose index, counted from [k], is not listed in
    [pages]; they keep their order. *)
Fixpoint survivorsFrom (k : Z) (pages : list Z) (doc : list Page) : list Page :=
  match doc with
  | [] => []
  | p :: rest =>
      if existsb (Z.eqb k) pages then survivorsFrom (k + 1) pages rest
      else p :: survivorsFrom (k + 1) pages rest
  end.

Definition survivors (pages : list Z) (doc : list Page) : list Page :=
  survivorsFrom 0 pages doc.

Definition validIndex (doc : t) (i : Z) : Prop := 0 <= i < getPageCount doc.


Definition startOf (r : Range) : Z :=
  match rangeStart r with Some s => s | None => 0 end.

Definition endOf (numPages : Z) (r : Range) : Z :=
  match rangeEnd r with Some e => e | None => numPages - 1 end.

(** A range is valid when [0 <= start <= end < numPages]. *)
Definition validRange (numPages : Z) (r : Range) : bool :=
  (0 <=? startOf r) && (startOf r <=? endOf numPages r)
  && (endOf numPages r <? numPages).

(** The pages [start .. end] of [doc], both ends included. *)
Definition pagesBetween (doc : list Page) (start end_ : Z) : list Page :=
  firstn (Z.to_nat (end_ - start + 1)) (skipn (Z.to_nat start) doc).

Definition rangePages (doc : list Page) (r : Range) : list Page :=
  pagesBetween doc (startOf r) (endOf (getPageCount doc) r).

(** [split] as the specification words it: every range is validated first,
    and only then is one document produced per range. *)
Definition splitValidatingFirst (pdf : Bytes) (ranges : list Range)
  : Result (list Bytes) :=
  match ranges with
  | [] => Throw ErrNoRanges
  | _ =>
      if forallb (validRange (getPageCount pdf)) ranges
      then Ok (map (rangePages pdf) ranges)
      else Throw ErrInvalidRange
  end.


(** The pages of a document after the pages selected by [sel] (indices
    counted from [k]) have had their rotation set to [angle]. *)
Fixpoint rotatedFrom (k : Z) (sel : Z -> bool) (angle : Z) (pages : list Page)
  : list Page :=
  match pages with
  | [] => []
  | p :: rest =>
      (if sel k then setRotation p angle else p)
      :: rotatedFrom (k + 1) sel angle rest
  end.

Definition listed (l : list Z) (k : Z) : bool := existsb (Z.eqb k) l.

(** The page selection of [rotate]: the listed pages, or every page. *)
Definition selected (pageNumbers : option (list Z)) (k : Z) : bool :=
  match pageNumbers with
  | Some l => listed l k
  | None => true
  end.


(** The page-list check of [rotate]: some listed page is out of range. *)
Definition invalidSelection (doc : Bytes) (pageNumbers : option (list Z)) : bool :=
  match pageNumbers with
  | Some l => existsb (fun page => (page <? 0) || (page >=? getPageCount doc)) l
  | None => false
  end.


(** The result of inserting the entries [es], sorted by position, into the
    part of [base] that starts at index [q]: before each entry come the base
    pages up to its position, after the last entry the remaining base pages. *)
Fixpoint weave (base : list Page) (q : Z) (es : list InsertOp) : list Page :=
  match es with
  | [] => skipn (Z.to_nat q) base
  | e :: rest =>
      pagesBetween base q (insPosition e - 1)
      ++ insPdf e ++ weave base (insPosition e) rest
  end.

(** The number of pages the entries [es] insert. *)
Definition insertedCount (es : list InsertOp) : Z :=
  Z.of_nat (length (concat (map insPdf es))).

Definition validPosition (base : Bytes) (e : InsertOp) : Prop :=
  0 <= insPosition e <= getPageCount base.

Definition validPositionb (base : Bytes) (e : InsertOp) : bool :=
  (0 <=? insPosition e) && (insPosition e <=? getPageCount base).




(** The pages of [doc] at the listed indices, in the order listed. *)
Definition pickPages (doc : list Page) (indices : list Z) : list Page :=
  flat_map (fun i => match nth_error doc (Z.to_nat i) with
                     | Some p => [p]
                     | None => []
                     end) indices.

(** The page list of a document item refers to existing pages only. *)
Definition validPageList (doc : Bytes) (pages : option (list Z)) : bool :=
  match pages with
  | Some l => forallb (fun i => (0 <=? i) && (i <? getPageCount doc)) l
  | None => true
  end.

(** The pages a document item contributes: the listed ones, or all. *)
Definition chosenPages (doc : Bytes) (pages : option (list Z)) : list Page :=
  match pages with
  | Some l => pickPages doc l
  | None => doc
  end.

Section Rendering.

Variable Template : Type.
Variable Input : Type.
Variable emptyInput : Input.
Variable generate : Template -> list Input -> Result Bytes.

(** A document item of [mergeAdvanced]: the bytes and the optional page
    list. *)
Definition documentItem (s : Bytes * option (list Z)) : MergeItem Template Input :=
  PdfItem (fst s) (snd s).

(** The pages rendered for a list of template entries, entry after entry;
    the first failing rendering fails the whole. *)
Fixpoint renderEntries (templates : list (TemplateEntry Template Input))
  : Result (list Page) :=
  match templates with
  | [] => Ok []
  | e :: rest =>
      let inputs :=
        match entryInputs e with Some l => l | None => [emptyInput] end in
      rendered <- generate (entryTemplate e) inputs ;;
      more <- renderEntries rest ;;
      Ok (rendered ++ more)
  end.

End Rendering.

(** The ranges cut the pages [k .. n - 1] into consecutive pieces, without
    gap or overlap. *)
Fixpoint coversFrom (k n : Z) (ranges : list Range) : Prop :=
  match ranges with
  | [] => k = n
  | r :: rest =>
      startOf r = k /\ k <= endOf n r < n /\ coversFrom (endOf n r + 1) n rest
  end.


(** The pages [w] with [page] put at index [a]. *)
Definition placeAt (a : nat) (page : Page) (w : list Page) : list Page :=
  firstn a w ++ page :: skipn a w.

(** The pages of [D] without the one at index [a]. *)
Definition dropAt (a : nat) (D : list Page) : list Page :=
  firstn a D ++ skipn (S a) D.


(** * Properties *)

(** ** The library primitives on lists *)

Lemma bind_Ok (A B : Type) (a : A) (k : A -> Result B) : bind (Ok a) k = k a.
Proof. reflexivity. Qed.

Lemma save_pages (doc : t) : doc <> [] -> save doc = doc.
Proof. destruct doc; [congruence | reflexivity]. Qed.

Lemma save_not_nil (doc : t) : save doc <> [].
Proof. destruct doc; discriminate. Qed.

Lemma save_save (doc : t) : save (save doc) = save doc.
Proof. destruct doc; reflexivity. Qed.

Lemma save_app_l (d1 d2 : t) : d1 <> [] -> save (d1 ++ d2) = d1 ++ d2.
Proof. destruct d1; [congruence | reflexivity]. Qed.

Lemma save_app_r (d1 d2 : t) : d2 <> [] -> save (d1 ++ d2) = d1 ++ d2.
Proof. intros H. apply save_pages. destruct d1, d2; try discriminate; congruence. Qed.

Lemma length_not_nil (A : Type) (l : list A) : (0 < length l)%nat -> l <> [].
Proof. destruct l; simpl; [lia | discriminate]. Qed.

Lemma getPage_nth (doc : t) (k : nat) (p : Page) :
  nth_error doc k = Some p -> getPage doc (Z.of_nat k) = Ok p.
Proof.
  intros H. unfold getPage, inRange, getPageCount.
  assert (k < length doc)%nat by (apply nth_error_Some; congruence).
  rewrite Nat2Z.id, H.
  replace ((0 <=? Z.of_nat k) && (Z.of_nat k <=? Z.of_nat (length doc) - 1))
    with true; [reflexivity|].
  symmetry. apply andb_true_iff. split; apply Z.leb_le; lia.
Qed.

Lemma skipn_nth_error (A : Type) (l : list A) (a : nat) (x : A) :
  nth_error l a = Some x -> skipn a l = x :: skipn (S a) l.
Proof.
  revert a. induction l as [|y l IH]; intros [|a] H; simpl in *; try discriminate.
  - congruence.
  - now apply IH.
Qed.

Lemma copyPages_seq (doc : t) (n a : nat) :
  (a + n <= length doc)%nat ->
  copyPages doc (map Z.of_nat (seq a n)) = Ok (firstn n (skipn a doc)).
Proof.
  revert a. induction n as [|n IH]; intros a Hlen; [reflexivity|].
  destruct (nth_error doc a) as [p|] eqn:Hp.
  - rewrite (skipn_nth_error _ _ Hp).
    cbn [seq map copyPages firstn].
    rewrite (getPage_nth _ _ Hp), bind_Ok, IH by lia. reflexivity.
  - apply nth_error_None in Hp. lia.
Qed.

Lemma copyPages_all (doc : t) : copyPages doc (getPageIndices doc) = Ok doc.
Proof.
  unfold getPageIndices. rewrite copyPages_seq by lia.
  simpl. now rewrite firstn_all.
Qed.

Lemma seq_add_map (s k b : nat) :
  map (fun i => (i + s)%nat) (seq b k) = seq (b + s) k.
Proof.
  revert b. induction k as [|k IH]; intros b; simpl; [reflexivity|].
  f_equal. apply (IH (S b)).
Qed.

Lemma arrayFrom_seq (n start : Z) :
  0 <= start ->
  arrayFrom n start = map Z.of_nat (seq (Z.to_nat start) (Z.to_nat n)).
Proof.
  intros Hs. unfold arrayFrom.
  change (Z.to_nat start) with (0 + Z.to_nat start)%nat at 1.
  rewrite <- seq_add_map, map_map.
  apply map_ext. intros i. lia.
Qed.

Lemma copyPages_arrayFrom (doc : t) (n start : Z) :
  0 <= start -> 0 <= n -> start + n <= getPageCount doc ->
  copyPages doc (arrayFrom n start)
  = Ok (firstn (Z.to_nat n) (skipn (Z.to_nat start) doc)).
Proof.
  intros Hs Hn Hlen. rewrite arrayFrom_seq by assumption.
  apply copyPages_seq. unfold getPageCount in Hlen. lia.
Qed.

Lemma addPages_app (doc : t) (pages : list Page) : addPages doc pages = doc ++ pages.
Proof.
  unfold addPages. revert doc.
  induction pages as [|p ps IH]; intros doc; simpl.
  - now rewrite app_nil_r.
  - rewrite IH. unfold addPage. now rewrite <- app_assoc.
Qed.

Lemma insertPage_end (doc : t) (page : Page) :
  insertPage doc (getPageCount doc) page = Ok (doc ++ [page]).
Proof.
  unfold insertPage, inRange, getPageCount.
  rewrite Nat2Z.id, firstn_all, skipn_all.
  replace ((0 <=? Z.of_nat (length doc)) && (Z.of_nat (length doc) <=? Z.of_nat (length doc)))
    with true; [reflexivity|].
  symmetry. apply andb_true_iff. split; apply Z.leb_le; lia.
Qed.

Lemma getPageCount_app (d1 d2 : t) :
  getPageCount (d1 ++ d2) = getPageCount d1 + getPageCount d2.
Proof. unfold getPageCount. rewrite length_app. lia. Qed.

Lemma insertPages_end (pages : list Page) (doc : t) :
  insertPages doc (getPageCount doc) pages = Ok (doc ++ pages).
Proof.
  revert doc. induction pages as [|p ps IH]; intros doc; simpl.
  - now rewrite app_nil_r.
  - rewrite insertPage_end, bind_Ok.
    replace (getPageCount doc + 1) with (getPageCount (doc ++ [p]))
      by (rewrite getPageCount_app; reflexivity).
    rewrite IH, <- app_assoc. reflexivity.
Qed.

Lemma insertIndexOf_bounds (p n : Z) :
  0 <= n -> 0 <= insertIndexOf p n <= n.
Proof. unfold insertIndexOf. lia. Qed.

Lemma insertIndexOf_in_range (p n : Z) :
  0 <= p <= n -> insertIndexOf p n = p.
Proof. unfold insertIndexOf. lia. Qed.

Lemma indices_all_valid (doc : t) :
  existsb (fun idx => (idx <? 0) || (idx >? getPageCount doc - 1))
    (getPageIndices doc) = false.
Proof.
  unfold getPageIndices, getPageCount.
  destruct (existsb _ _) eqn:E; [|reflexivity].
  apply existsb_exists in E. destruct E as (i & Hin & Hi).
  apply in_map_iff in Hin. destruct Hin as (k & <- & Hk).
  apply in_seq in Hk. apply orb_true_iff in Hi.
  destruct Hi as [Hi|Hi]; [apply Z.ltb_lt in Hi | apply Z.gtb_lt in Hi]; lia.
Qed.

(** ** merge, mergeAdvanced, mergeWithTemplates *)

Section MergeProperties.

Variable Template : Type.
Variable Input : Type.
Variable emptyInput : Input.
Variable generate : Template -> list Input -> Result Bytes.

Local Notation "'itemPagesG'" := (itemPages emptyInput generate).
Local Notation "'collectG'" := (collectPages emptyInput generate).
Local Notation "'mergeAdvancedG'" := (mergeAdvanced emptyInput generate).
Local Notation "'mergeWithTemplatesG'" := (mergeWithTemplates emptyInput generate).
Local Notation "'mergeG'" := (merge emptyInput generate).

Lemma itemPages_whole_pdf (pdf : Bytes) : itemPagesG (PdfItem pdf None) = Ok pdf.
Proof.
  unfold itemPages, load.
  rewrite indices_all_valid. apply copyPages_all.
Qed.

(** Whatever the position, the pending batch ends up being the whole result:
    the destination is created empty inside the call. *)
Lemma mergeAdvanced_batch (item : MergeItem Template Input) (items : list _)
  (pos : option Position) :
  mergeAdvancedG (item :: items) {| position := pos |}
  = (allPages <- collectG (item :: items) [] ;; Ok (save allPages)).
Proof.
  unfold mergeAdvanced.
  destruct (collectG (item :: items) []) as [allPages|e] eqn:E;
    cbn [position bind]; [|reflexivity].
  unfold create.
  destruct pos as [[| |p]|]; rewrite ?addPages_app; try reflexivity.
  replace (insertIndexOf p (getPageCount [])) with (getPageCount []).
  - now rewrite insertPages_end.
  - unfold insertIndexOf, getPageCount. simpl. lia.
Qed.

Lemma collectPages_pdfs (pdfs : list Bytes) (acc : list Page) :
  collectG (map (fun pdf => PdfItem pdf None) pdfs) acc
  = Ok (acc ++ concat pdfs).
Proof.
  revert acc.
  induction pdfs as [|pdf pdfs IH]; intros acc; cbn [map collectPages concat].
  - now rewrite app_nil_r.
  - rewrite itemPages_whole_pdf, bind_Ok, IH, <- app_assoc. reflexivity.
Qed.

Lemma merge_concat (pdf : Bytes) (pdfs : list Bytes) (options : MergeOptions) :
  mergeG (pdf :: pdfs) options = Ok (save (concat (pdf :: pdfs))).
Proof.
  unfold merge. destruct options as [pos].
  cbn [map]. rewrite mergeAdvanced_batch.
  change (PdfItem pdf None :: map (fun pdf0 => PdfItem pdf0 None) pdfs)
    with (map (fun pdf0 => @PdfItem Template Input pdf0 None) (pdf :: pdfs)).
  now rewrite collectPages_pdfs.
Qed.

(** C5 (amended): when [A] or [B] has a page, [merge [A; B]] has
    [pageCount A + pageCount B] pages, its first [pageCount A] pages are
    those of [A] in order and the rest those of [B]; in general, merging one
    or more documents yields their pages concatenated in argument order,
    each source's pages in their own order, serialized: when no source has a
    page the result is one blank page. *)
Theorem merge_concatenates_sources :
  (forall (A B : Bytes) (options : MergeOptions),
      A <> [] \/ B <> [] ->
      exists r, mergeG [A; B] options = Ok r
                /\ getPageCount r = getPageCount A + getPageCount B
                /\ firstn (length A) r = A
                /\ skipn (length A) r = B)
  /\ (forall (pdf : Bytes) (pdfs : list Bytes) (options : MergeOptions),
         mergeG (pdf :: pdfs) options = Ok (save (concat (pdf :: pdfs))))
  /\ (forall (pdf : Bytes) (pdfs : list Bytes) (options : MergeOptions),
         concat (pdf :: pdfs) <> [] ->
         mergeG (pdf :: pdfs) options = Ok (concat (pdf :: pdfs))).
Proof.
  split; [|split].
  - intros A B options Hne. exists (A ++ B). rewrite merge_concat.
    cbn [concat]. rewrite app_nil_r. repeat split.
    + f_equal. destruct Hne; [now apply save_app_l | now apply save_app_r].
    + apply getPageCount_app.
    + rewrite firstn_app, firstn_all, Nat.sub_diag. simpl. apply app_nil_r.
    + rewrite skipn_app, skipn_all, Nat.sub_diag. reflexivity.
  - apply merge_concat.
  - intros pdf pdfs options Hne. now rewrite merge_concat, save_pages.
Qed.

(** One step of the template fold: the rendered pages are appended to the
    current document, whichever position the entry carries. *)
Lemma mergeAdvanced_pdf_then_template (currentPdf : Bytes) (template : Template)
  (inputs : list Input) (pos : option Position) :
  mergeAdvancedG [PdfItem currentPdf None; TemplateItem template (Some inputs)]
    {| position := pos |}
  = (templatePdf <- generate template inputs ;;
     Ok (save (currentPdf ++ templatePdf))).
Proof.
  rewrite mergeAdvanced_batch. cbn [collectPages].
  rewrite itemPages_whole_pdf, bind_Ok. cbn [itemPages].
  destruct (generate template inputs) as [tp|e]; cbn [bind]; [|reflexivity].
  unfold load. rewrite copyPages_all. reflexivity.
Qed.

Lemma mergeTemplatesLoop_position_irrelevant (templates : list (TemplateEntry Template Input))
  (currentPdf : Bytes) :
  mergeTemplatesLoop emptyInput generate currentPdf templates
  = mergeTemplatesLoop emptyInput generate currentPdf
      (map (fun e => mkEntry (entryTemplate e) (entryInputs e) None) templates).
Proof.
  revert currentPdf.
  induction templates as [|e rest IH]; intros currentPdf; [reflexivity|].
  cbn [map mergeTemplatesLoop entryTemplate entryInputs entryPosition].
  rewrite !mergeAdvanced_pdf_then_template.
  destruct (generate _ _) as [tp|err]; cbn [bind]; [apply IH | reflexivity].
Qed.

End MergeProperties.

Lemma merge_concatenates_sources_witness :
  exists r, merge tt renderEach [docOf [1; 2]; docOf [3]] noOptions = Ok r
            /\ getPageCount r = getPageCount (docOf [1; 2]) + getPageCount (docOf [3])
            /\ firstn (length (docOf [1; 2])) r = docOf [1; 2]
            /\ skipn (length (docOf [1; 2])) r = docOf [3].
Proof.
  apply (proj1 (@merge_concatenates_sources Z unit tt renderEach)).
  left. discriminate.
Defined.

(** C5 as stated fails when no source has a page: the result has one page,
    the blank page, not zero. *)
Lemma merge_pageless_sources_blank :
  merge tt renderEach [[]; []] noOptions = Ok [blankPage]
  /\ getPageCount [blankPage] <> getPageCount [] + getPageCount [].
Proof. split; [reflexivity | discriminate]. Qed.

(** C1 (evaluation at a two-page base and one entry with position [start]):
    the rendered page is appended after the base pages; it is not placed
    before them, because [mergeAdvanced] resolves the position against the
    empty document it creates. *)
Theorem mergeWithTemplates_start_is_appended :
  mergeWithTemplates tt renderEach (docOf [1; 2])
    [ {| entryTemplate := 9; entryInputs := Some [tt]; entryPosition := Some PStart |} ]
  = Ok (docOf [1; 2; 9])
  /\ mergeWithTemplates tt renderEach (docOf [1; 2])
       [ {| entryTemplate := 9; entryInputs := Some [tt]; entryPosition := Some PStart |} ]
     <> Ok (docOf [9; 1; 2]).
Proof.
  split; [reflexivity | discriminate].
Qed.

(** ** Array.prototype.sort *)

Section SortProperties.

Variable A : Type.
Variable cmp : A -> A -> Z.

Lemma sortInsert_perm (x : A) (l : list A) : Permutation (sortInsert cmp x l) (x :: l).
Proof.
  induction l as [|y l IH]; simpl; [reflexivity|].
  destruct (cmp x y <=? 0); [reflexivity|].
  rewrite IH. apply perm_swap.
Qed.

Lemma sort_perm (l : list A) : Permutation (sort cmp l) l.
Proof.
  induction l as [|x l IH]; simpl; [reflexivity|].
  rewrite sortInsert_perm. now constructor.
Qed.

Lemma sort_length (l : list A) : length (sort cmp l) = length l.
Proof. apply Permutation_length, sort_perm. Qed.

Hypothesis cmp_total : forall x y, 0 < cmp x y -> cmp y x <= 0.
Hypothesis cmp_trans : forall x y z, cmp x y <= 0 -> cmp y z <= 0 -> cmp x z <= 0.

Lemma sortInsert_sorted (x : A) (l : list A) :
  StronglySorted (fun a b => cmp a b <= 0) l ->
  StronglySorted (fun a b => cmp a b <= 0) (sortInsert cmp x l).
Proof.
  induction 1 as [|y l Hs IH Hall]; simpl.
  - repeat constructor.
  - destruct (cmp x y <=? 0) eqn:E.
    + apply Z.leb_le in E. constructor; [now constructor|].
      constructor; [exact E|].
      eapply Forall_impl; [|exact Hall]. intros z Hz. now apply cmp_trans with y.
    + apply Z.leb_gt in E. constructor; [exact IH|].
      eapply Permutation_Forall; [symmetry; apply sortInsert_perm|].
      constructor; [now apply cmp_total | exact Hall].
Qed.

Lemma sort_sorted (l : list A) :
  StronglySorted (fun a b => cmp a b <= 0) (sort cmp l).
Proof.
  induction l as [|x l IH]; simpl; [constructor | now apply sortInsert_sorted].
Qed.

End SortProperties.

(** ** remove *)

Lemma survivorsFrom_all_below (doc : list Page) (k : Z) (pages : list Z) :
  Forall (fun i => i < k) pages -> survivorsFrom k pages doc = doc.
Proof.
  revert k. induction doc as [|p doc IH]; intros k Hall; simpl; [reflexivity|].
  replace (existsb (Z.eqb k) pages) with false.
  - f_equal. apply IH. eapply Forall_impl; [|exact Hall]. simpl. lia.
  - symmetry. apply not_true_is_false. intros E.
    apply existsb_exists in E. destruct E as (i & Hin & Hi).
    apply Z.eqb_eq in Hi. rewrite Forall_forall in Hall.
    specialize (Hall _ Hin). lia.
Qed.

Lemma survivorsFrom_cut (pre : list Page) (k i : Z) (rest : list Z) :
  Forall (fun j => j < i) rest ->
  k <= i < k + Z.of_nat (length pre) ->
  survivorsFrom k (i :: rest) pre
  = survivorsFrom k rest (firstn (Z.to_nat (i - k)) pre)
    ++ skipn (S (Z.to_nat (i - k))) pre.
Proof.
  revert k. induction pre as [|p pre IH]; intros k Hall Hk.
  - simpl in Hk. lia.
  - cbn [survivorsFrom existsb]. destruct (Z.eqb_spec k i) as [->|Hne].
    + rewrite Z.sub_diag. cbn [orb Z.to_nat firstn skipn survivorsFrom app].
      apply survivorsFrom_all_below. constructor; [lia|].
      eapply Forall_impl; [|exact Hall]. simpl. lia.
    + replace (Z.to_nat (i - k)) with (S (Z.to_nat (i - (k + 1)))) by lia.
      cbn [orb firstn skipn survivorsFrom].
      rewrite IH; [|assumption|simpl length in Hk; lia].
      destruct (existsb (Z.eqb k) rest); reflexivity.
Qed.

Lemma removePage_app (pre suf : t) (i : Z) :
  0 <= i < getPageCount pre ->
  removePage (pre ++ suf) i
  = Ok (firstn (Z.to_nat i) pre ++ skipn (S (Z.to_nat i)) pre ++ suf).
Proof.
  unfold getPageCount. intros Hi. unfold removePage, inRange, getPageCount.
  rewrite length_app.
  replace ((0 <=? i) && (i <=? Z.of_nat (length pre + length suf) - 1)) with true
    by (symmetry; apply andb_true_iff; split; apply Z.leb_le; lia).
  rewrite firstn_app, skipn_app.
  replace (Z.to_nat i - length pre)%nat with 0%nat by lia.
  replace (S (Z.to_nat i) - length pre)%nat with 0%nat by lia.
  simpl firstn. simpl skipn at 2. now rewrite app_nil_r, app_assoc.
Qed.

Lemma removePages_descending (pages : list Z) (pre suf : t) :
  StronglySorted Z.gt pages ->
  Forall (validIndex pre) pages ->
  removePages (pre ++ suf) pages = Ok (survivors pages pre ++ suf).
Proof.
  unfold survivors. revert pre suf.
  induction pages as [|i rest IH]; intros pre suf Hs Hv.
  - simpl. now rewrite survivorsFrom_all_below by constructor.
  - inversion Hs as [|? ? Hs' Hgt]; subst. inversion Hv as [|? ? Hi Hv']; subst.
    unfold validIndex in Hi. cbn [removePages].
    rewrite removePage_app, bind_Ok by assumption.
    assert (Hlt : Forall (fun j => j < i) rest)
      by (eapply Forall_impl; [|exact Hgt]; simpl; lia).
    rewrite IH.
    + rewrite survivorsFrom_cut; [|assumption|unfold getPageCount in Hi; lia].
      rewrite Z.sub_0_r, app_assoc. reflexivity.
    + assumption.
    + rewrite Forall_forall in *. intros j Hj.
      specialize (Hlt _ Hj). specialize (Hv' _ Hj).
      unfold validIndex, getPageCount in *. rewrite length_firstn. lia.
Qed.

Lemma removePages_length (pages : list Z) (doc r : t) :
  removePages doc pages = Ok r ->
  getPageCount r = getPageCount doc - Z.of_nat (length pages).
Proof.
  revert doc. induction pages as [|i rest IH]; intros doc; simpl.
  - intros [= <-]. lia.
  - unfold removePage, inRange.
    destruct ((0 <=? i) && (i <=? getPageCount doc - 1)) eqn:E; [|discriminate].
    apply andb_true_iff in E. destruct E as [E1 E2].
    apply Z.leb_le in E1, E2. cbn [bind]. intros H. apply IH in H.
    rewrite H. unfold getPageCount in *.
    rewrite length_app, length_firstn, length_skipn. lia.
Qed.

Lemma sort_descending_strict (pages : list Z) :
  NoDup pages -> StronglySorted Z.gt (sort descending pages).
Proof.
  intros Hnd.
  assert (Hs : StronglySorted (fun a b => descending a b <= 0) (sort descending pages))
    by (apply sort_sorted; unfold descending; intros; lia).
  assert (Hnd' : NoDup (sort descending pages))
    by (eapply Permutation_NoDup; [symmetry; apply sort_perm | exact Hnd]).
  induction Hs as [|x l Hs IH Hall]; constructor.
  - apply IH. now inversion Hnd'.
  - inversion Hnd' as [|? ? Hnotin _]; subst.
    rewrite Forall_forall in *. intros y Hy. specialize (Hall _ Hy).
    unfold descending in Hall.
    assert (x <> y) by (intros ->; contradiction). lia.
Qed.

Lemma existsb_invalid_false (doc : t) (pages : list Z) :
  Forall (validIndex doc) pages ->
  existsb (fun page => (page <? 0) || (page >=? getPageCount doc)) pages = false.
Proof.
  intros Hv. apply not_true_is_false. intros E.
  apply existsb_exists in E. destruct E as (i & Hin & Hi).
  rewrite Forall_forall in Hv. specialize (Hv _ Hin). unfold validIndex in Hv.
  apply orb_true_iff in Hi.
  destruct Hi as [Hi|Hi]; [apply Z.ltb_lt in Hi | apply Z.geb_le in Hi]; lia.
Qed.

Lemma existsb_invalid_true (doc : t) (pages : list Z) :
  ~ Forall (validIndex doc) pages ->
  existsb (fun page => (page <? 0) || (page >=? getPageCount doc)) pages = true.
Proof.
  intros Hv. apply not_false_is_true. intros E. apply Hv.
  apply Forall_forall. intros i Hin.
  assert (Hi : (i <? 0) || (i >=? getPageCount doc) = false).
  { apply not_true_is_false. intros Hi.
    assert (existsb (fun page => (page <? 0) || (page >=? getPageCount doc)) pages = true)
      by (apply existsb_exists; eauto).
    congruence. }
  apply orb_false_iff in Hi. destruct Hi as [H1 H2].
  apply Z.ltb_ge in H1. rewrite Z.geb_leb in H2. apply Z.leb_gt in H2.
  unfold validIndex. lia.
Qed.

Lemma survivors_length (doc : Bytes) (pages : list Z) :
  NoDup pages ->
  Forall (validIndex doc) pages ->
  removePages doc (sort descending pages) = Ok (survivors pages doc)
  /\ getPageCount (survivors pages doc) = getPageCount doc - Z.of_nat (length pages).
Proof.
  intros Hnd Hv.
  assert (Hs := sort_descending_strict Hnd).
  assert (Hrun : removePages doc (sort descending pages) = Ok (survivors pages doc)).
  { assert (Hv' : Forall (validIndex doc) (sort descending pages))
      by (eapply Permutation_Forall; [symmetry; apply sort_perm | exact Hv]).
    generalize (@removePages_descending _ doc [] Hs Hv').
    rewrite !app_nil_r. intros ->. f_equal.
    unfold survivors. clear. generalize 0.
    induction doc as [|p d IH]; intros k; simpl; [reflexivity|].
    rewrite IH.
    replace (existsb (Z.eqb k) (sort descending pages))
      with (existsb (Z.eqb k) pages); [reflexivity|].
    apply eq_true_iff_eq. rewrite !existsb_exists.
    split; intros (i & Hin & Hi); exists i; split; trivial;
      [ apply Permutation_in with pages; [symmetry; apply sort_perm|assumption]
      | apply Permutation_in with (sort descending pages);
        [apply sort_perm|assumption] ]. }
  split; [exact Hrun|].
  apply removePages_length in Hrun. rewrite Hrun, sort_length. reflexivity.
Qed.

(** C4 (amended): for a non-empty list of distinct page indices, [remove]
    checks every index before it removes anything: if one is out of range the
    call throws and no page has been removed; otherwise it removes the pages
    in strictly descending index order and returns, serialized, exactly the
    pages whose index is not listed, in their original order.  When some page
    is not listed the page count of the result is the original count minus
    the number of indices; when every page is listed the result is one blank
    page. *)
Theorem remove_distinct_pages (doc : Bytes) (pages : list Z) :
  pages <> [] ->
  NoDup pages ->
  (Forall (validIndex doc) pages ->
     StronglySorted Z.gt (sort descending pages)
     /\ remove doc pages
        = (pdfDoc <- removePages doc (sort descending pages) ;; Ok (save pdfDoc))
     /\ remove doc pages = Ok (save (survivors pages doc))
     /\ getPageCount (survivors pages doc)
        = getPageCount doc - Z.of_nat (length pages)
     /\ (Z.of_nat (length pages) < getPageCount doc ->
         remove doc pages = Ok (survivors pages doc))
     /\ (Z.of_nat (length pages) = getPageCount doc ->
         remove doc pages = Ok [blankPage]))
  /\ (~ Forall (validIndex doc) pages ->
        remove doc pages = Throw ErrInvalidPageNumber).
Proof.
  intros Hne Hnd. split.
  - intros Hv.
    assert (Hs := sort_descending_strict Hnd).
    destruct (survivors_length Hnd Hv) as [Hrun Hcount].
    assert (Hrem : remove doc pages
                   = (pdfDoc <- removePages doc (sort descending pages) ;;
                      Ok (save pdfDoc))).
    { unfold remove. destruct pages as [|i rest]; [congruence|].
      unfold load. now rewrite existsb_invalid_false by assumption. }
    assert (Hres : remove doc pages = Ok (save (survivors pages doc)))
      by (now rewrite Hrem, Hrun).
    repeat split; trivial.
    + intros Hlt. rewrite Hres, save_pages; [reflexivity|].
      apply length_not_nil. unfold getPageCount in Hcount, Hlt. lia.
    + intros Heq. rewrite Hres.
      destruct (survivors pages doc) as [|p r] eqn:E; [reflexivity|].
      unfold getPageCount in Hcount, Heq. cbn [length] in Hcount. lia.
  - intros Hv. unfold remove. destruct pages as [|i rest]; [congruence|].
    unfold load. now rewrite existsb_invalid_true.
Qed.

Lemma remove_distinct_pages_witness :
  remove (docOf [10; 11; 12; 13]) [1; 3] = Ok (docOf [10; 12])
  /\ getPageCount (docOf [10; 12]) = 4 - 2.
Proof.
  destruct (@remove_distinct_pages (docOf [10; 11; 12; 13]) [1; 3]) as [H _].
  - discriminate.
  - repeat constructor; simpl; intuition lia.
  - destruct H as (_ & _ & _ & _ & H & _).
    + repeat constructor; unfold getPageCount; simpl; lia.
    + split; [apply H; unfold getPageCount; simpl; lia | reflexivity].
Defined.

(** C4 as stated fails on the empty list, which is a list of distinct
    in-range indices: [remove] throws instead of returning the document. *)
Lemma remove_empty_list_throws :
  NoDup (@nil Z)
  /\ Forall (validIndex (docOf [10; 11])) []
  /\ remove (docOf [10; 11]) [] = Throw ErrNoPagesForRemoval
  /\ forall r, remove (docOf [10; 11]) [] <> Ok r.
Proof.
  repeat split; try constructor. intros r. discriminate.
Qed.

(** ** split *)

Lemma pagesBetween_length (doc : list Page) (s e : Z) :
  0 <= s -> s <= e -> e < getPageCount doc ->
  Z.of_nat (length (pagesBetween doc s e)) = e - s + 1.
Proof.
  unfold pagesBetween, getPageCount. intros.
  rewrite length_firstn, length_skipn. lia.
Qed.

Lemma splitLoop_all_or_nothing (doc : t) (ranges : list Range) (result : list Bytes) :
  splitLoop doc (getPageCount doc) ranges result
  = if forallb (validRange (getPageCount doc)) ranges
    then Ok (result ++ map (rangePages doc) ranges)
    else Throw ErrInvalidRange.
Proof.
  revert result. induction ranges as [|r rest IH]; intros result.
  - simpl. now rewrite app_nil_r.
  - cbn [splitLoop forallb map]. unfold validRange at 1.
    fold (startOf r). fold (endOf (getPageCount doc) r).
    set (s := startOf r). set (e := endOf (getPageCount doc) r).
    destruct (Z.ltb_spec s 0) as [Hs|Hs]; cbn [orb].
    { replace (0 <=? s) with false by (symmetry; apply Z.leb_gt; lia).
      reflexivity. }
    replace (0 <=? s) with true by (symmetry; apply Z.leb_le; lia).
    rewrite Z.geb_leb.
    destruct (Z.leb_spec (getPageCount doc) e) as [He|He]; cbn [orb andb].
    { replace (e <? getPageCount doc) with false by (symmetry; apply Z.ltb_ge; lia).
      now rewrite andb_false_r. }
    replace (e <? getPageCount doc) with true by (symmetry; apply Z.ltb_lt; lia).
    rewrite Z.gtb_ltb.
    destruct (Z.ltb_spec e s) as [Hse|Hse].
    { replace (s <=? e) with false by (symmetry; apply Z.leb_gt; lia).
      reflexivity. }
    replace (s <=? e) with true by (symmetry; apply Z.leb_le; lia).
    cbn [andb].
    rewrite copyPages_arrayFrom, bind_Ok by lia.
    rewrite IH. unfold create. rewrite addPages_app. cbn [app].
    fold (pagesBetween doc s e). rewrite save_pages.
    + destruct (forallb _ rest); [|reflexivity].
      rewrite <- app_assoc. reflexivity.
    + apply length_not_nil.
      assert (Hl := @pagesBetween_length doc s e Hs Hse He). lia.
Qed.

Lemma pagesBetween_nth (doc : list Page) (s e : Z) (k : nat) :
  0 <= s -> Z.of_nat k <= e - s ->
  nth_error (pagesBetween doc s e) k = nth_error doc (Z.to_nat s + k).
Proof.
  unfold pagesBetween. intros Hs Hk.
  rewrite nth_error_firstn.
  replace (k <? Z.to_nat (e - s + 1))%nat with true
    by (symmetry; apply Nat.ltb_lt; lia).
  apply nth_error_skipn.
Qed.

(** C6: for a non-empty list of ranges, [split] behaves as if every range were
    validated before any output is produced: if one range is invalid
    ([start < 0], [end >= pageCount] or [start > end], with the defaults
    [start = 0] and [end = pageCount - 1]) the call throws the invalid-range
    error and returns no output; otherwise it returns one document per range,
    holding exactly the pages [start .. end] of the source in order. *)
Theorem split_ranges (pdf : Bytes) (ranges : list Range) :
  ranges <> [] ->
  split pdf ranges = splitValidatingFirst pdf ranges
  /\ (Forall (fun r => validRange (getPageCount pdf) r = true) ranges ->
      split pdf ranges = Ok (map (rangePages pdf) ranges)
      /\ Forall (fun r =>
           let s := startOf r in
           let e := endOf (getPageCount pdf) r in
           Z.of_nat (length (rangePages pdf r)) = e - s + 1
           /\ forall k : nat, Z.of_nat k <= e - s ->
                nth_error (rangePages pdf r) k = nth_error pdf (Z.to_nat s + k))
         ranges)
  /\ (Exists (fun r => validRange (getPageCount pdf) r = false) ranges ->
      split pdf ranges = Throw ErrInvalidRange
      /\ category ErrInvalidRange = InvalidRange).
Proof.
  intros Hne.
  assert (Heq : split pdf ranges = splitValidatingFirst pdf ranges).
  { unfold split, splitValidatingFirst. destruct ranges as [|r rest]; [congruence|].
    unfold load, getPages. fold (getPageCount pdf).
    now rewrite splitLoop_all_or_nothing. }
  split; [exact Heq|]. rewrite Heq. unfold splitValidatingFirst.
  destruct ranges as [|r0 rest0]; [congruence|].
  set (ranges := r0 :: rest0) in *. split.
  - intros Hv. split.
    + replace (forallb (validRange (getPageCount pdf)) ranges) with true; [reflexivity|].
      symmetry. apply forallb_forall. now apply Forall_forall.
    + eapply Forall_impl; [|exact Hv]. intros r Hr. cbv zeta.
      unfold validRange in Hr. apply andb_true_iff in Hr. destruct Hr as [Hr H3].
      apply andb_true_iff in Hr. destruct Hr as [H1 H2].
      apply Z.leb_le in H1, H2. apply Z.ltb_lt in H3. split.
      * now apply pagesBetween_length.
      * intros k Hk. now apply pagesBetween_nth.
  - intros Hex. split; [|reflexivity].
    replace (forallb (validRange (getPageCount pdf)) ranges) with false; [reflexivity|].
    symmetry. apply not_true_is_false. intros E.
    apply Exists_exists in Hex. destruct Hex as (r & Hin & Hr).
    rewrite forallb_forall in E. specialize (E _ Hin). congruence.
Qed.

Lemma split_ranges_witness :
  split (docOf [10; 11; 12; 13; 14])
    [ {| rangeStart := Some 0; rangeEnd := Some 1 |};
      {| rangeStart := Some 2; rangeEnd := None |} ]
  = Ok [docOf [10; 11]; docOf [12; 13; 14]]
  /\ split (docOf [10; 11; 12; 13; 14])
       [ {| rangeStart := Some 0; rangeEnd := Some 1 |};
         {| rangeStart := Some 3; rangeEnd := Some 5 |} ]
     = Throw ErrInvalidRange.
Proof.
  split.
  - refine (proj1 (proj1 (proj2 (@split_ranges (docOf [10; 11; 12; 13; 14]) _ _)) _)).
    + discriminate.
    + repeat constructor.
  - refine (proj1 (proj2 (proj2 (@split_ranges (docOf [10; 11; 12; 13; 14]) _ _)) _)).
    + discriminate.
    + apply Exists_cons_tl, Exists_cons_hd. reflexivity.
Defined.

(** ** rotate *)

Lemma normalizeDegrees_mod (degrees : Z) : normalizeDegrees degrees = degrees mod 360.
Proof.
  unfold normalizeDegrees.
  assert (H := Z.rem_bound_abs degrees 360).
  assert (Hr : -360 < Z.rem degrees 360 < 360).
  { destruct (Z.le_ge_cases 0 degrees) as [Hd|Hd].
    - assert (H1 := Z.rem_bound_pos degrees 360 Hd). lia.
    - assert (H1 := Z.rem_bound_neg_pos degrees 360). lia. }
  rewrite Z.rem_mod_nonneg by lia.
  assert (E := Z.rem_eq degrees 360).
  replace (Z.rem degrees 360 + 360)
    with (degrees + (1 - degrees ÷ 360) * 360) by lia.
  apply Z_mod_plus_full.
Qed.

Lemma multiple_of_90_rem (x : Z) : Z.rem x 90 = 0 <-> exists k, x = 90 * k.
Proof.
  split.
  - intros H. exists (x ÷ 90). assert (E := Z.rem_eq x 90). lia.
  - intros (k & ->). rewrite Z.mul_comm. apply Z.rem_mul. lia.
Qed.

Lemma normalizeDegrees_multiple (degrees : Z) :
  Z.rem degrees 90 = 0 -> Z.rem (normalizeDegrees degrees) 90 = 0.
Proof.
  intros H. apply multiple_of_90_rem in H. destruct H as (k & ->).
  rewrite normalizeDegrees_mod. apply multiple_of_90_rem.
  exists (k - 4 * (90 * k / 360)).
  assert (E := Z.div_mod (90 * k) 360). lia.
Qed.

Lemma normalizeDegrees_rem (degrees : Z) :
  Z.rem (normalizeDegrees degrees) 360 = degrees mod 360.
Proof.
  rewrite normalizeDegrees_mod.
  assert (H := Z.mod_pos_bound degrees 360).
  rewrite Z.rem_mod_nonneg by lia. apply Z.mod_mod. lia.
Qed.

Lemma rotatedFrom_ext (pages : list Page) (k : Z) (sel sel' : Z -> bool) (angle : Z) :
  (forall j, k <= j < k + Z.of_nat (length pages) -> sel j = sel' j) ->
  rotatedFrom k sel angle pages = rotatedFrom k sel' angle pages.
Proof.
  revert k. induction pages as [|p rest IH]; intros k H; simpl; [reflexivity|].
  rewrite H by (simpl length; lia). f_equal.
  apply IH. intros j Hj. apply H. simpl length. lia.
Qed.

Lemma rotatedFrom_none (pages : list Page) (k : Z) (angle : Z) :
  rotatedFrom k (fun _ => false) angle pages = pages.
Proof.
  revert k. induction pages as [|p rest IH]; intros k; simpl; [reflexivity|].
  now rewrite IH.
Qed.

Lemma rotatedFrom_length (pages : list Page) (k : Z) (sel : Z -> bool) (angle : Z) :
  length (rotatedFrom k sel angle pages) = length pages.
Proof.
  revert k. induction pages as [|p rest IH]; intros k; simpl; [reflexivity|].
  now rewrite IH.
Qed.

Lemma rotatedFrom_compose (pages : list Page) (k : Z) (sel sel' : Z -> bool) (angle : Z) :
  rotatedFrom k sel' angle (rotatedFrom k sel angle pages)
  = rotatedFrom k (fun j => sel j || sel' j) angle pages.
Proof.
  revert k. induction pages as [|p rest IH]; intros k; simpl; [reflexivity|].
  rewrite IH. destruct (sel k), (sel' k); reflexivity.
Qed.

Lemma rotatedFrom_idempotent (pages : list Page) (k : Z) (sel : Z -> bool) (angle : Z) :
  rotatedFrom k sel angle (rotatedFrom k sel angle pages)
  = rotatedFrom k sel angle pages.
Proof.
  rewrite rotatedFrom_compose. apply rotatedFrom_ext.
  intros j _. apply orb_diag.
Qed.

Lemma rotatedFrom_nth (pages : list Page) (k : Z) (sel : Z -> bool) (angle : Z)
  (n : nat) (p : Page) :
  nth_error pages n = Some p ->
  nth_error (rotatedFrom k sel angle pages) n
  = Some (if sel (k + Z.of_nat n) then setRotation p angle else p).
Proof.
  revert k n. induction pages as [|q rest IH]; intros k [|n] H;
    cbn [nth_error rotatedFrom] in *; try discriminate.
  - injection H as ->. now rewrite Z.add_0_r.
  - rewrite (IH _ _ H). replace (k + 1 + Z.of_nat n) with (k + Z.of_nat (S n)) by lia.
    reflexivity.
Qed.

Lemma rotatedFrom_single (pages : list Page) (k : Z) (n : nat) (angle : Z) :
  rotatedFrom k (listed [k + Z.of_nat n]) angle pages
  = match nth_error pages n with
    | Some p => firstn n pages ++ setRotation p angle :: skipn (S n) pages
    | None => pages
    end.
Proof.
  revert k n. induction pages as [|q rest IH]; intros k n.
  - destruct n; reflexivity.
  - destruct n as [|n]; cbn [rotatedFrom nth_error firstn skipn app].
    + unfold listed at 1. cbn [existsb]. rewrite Z.add_0_r, Z.eqb_refl. cbn [orb].
      f_equal. rewrite <- (rotatedFrom_none rest (k + 1) angle) at 2.
      apply rotatedFrom_ext. intros j Hj. unfold listed. cbn [existsb].
      rewrite orb_false_r. apply Z.eqb_neq. lia.
    + unfold listed at 1. cbn [existsb].
      replace (k =? k + Z.of_nat (S n)) with false by (symmetry; apply Z.eqb_neq; lia).
      cbn [orb]. replace (k + Z.of_nat (S n)) with (k + 1 + Z.of_nat n) by lia.
      rewrite IH. destruct (nth_error rest n); reflexivity.
Qed.

Lemma rotatePageAt_rotated (pages : list Page) (pageNum angle : Z) :
  Z.rem angle 90 = 0 ->
  rotatePageAt pages pageNum angle = Ok (rotatedFrom 0 (listed [pageNum]) angle pages).
Proof.
  intros Ha. unfold rotatePageAt. destruct (Z.ltb_spec pageNum 0) as [Hneg|Hpos].
  - f_equal. rewrite <- (rotatedFrom_none pages 0 angle) at 1.
    apply rotatedFrom_ext. intros j Hj. unfold listed. cbn [existsb].
    rewrite orb_false_r. symmetry. apply Z.eqb_neq. lia.
  - assert (E : pageNum = Z.of_nat (Z.to_nat pageNum)) by lia.
    revert E. generalize (Z.to_nat pageNum) as n. intros n ->.
    change (listed [Z.of_nat n]) with (listed [0 + Z.of_nat n]).
    rewrite rotatedFrom_single.
    destruct (nth_error pages n); [|reflexivity].
    unfold pageSetRotation. rewrite Ha. reflexivity.
Qed.

Lemma rotatePages_rotated (pagesToRotate : list Z) (pages : list Page) (angle : Z) :
  Z.rem angle 90 = 0 ->
  rotatePages pages pagesToRotate angle
  = Ok (rotatedFrom 0 (listed pagesToRotate) angle pages).
Proof.
  intros Ha. revert pages.
  induction pagesToRotate as [|i rest IH]; intros pages; cbn [rotatePages].
  - f_equal. symmetry. apply rotatedFrom_none.
  - rewrite rotatePageAt_rotated, bind_Ok by assumption.
    rewrite IH, rotatedFrom_compose. f_equal.
    apply rotatedFrom_ext. intros j _. unfold listed. cbn [existsb].
    now rewrite orb_false_r.
Qed.

Lemma listed_all_indices (n : nat) (j : Z) :
  0 <= j < Z.of_nat n -> listed (map Z.of_nat (seq 0 n)) j = true.
Proof.
  intros Hj. apply existsb_exists. exists j. split; [|apply Z.eqb_refl].
  apply in_map_iff. exists (Z.to_nat j). split; [lia|]. apply in_seq. lia.
Qed.

Lemma rotate_closed_form (doc : Bytes) (degrees : Z) (pageNumbers : option (list Z)) :
  Z.rem degrees 90 = 0 ->
  doc <> [] ->
  rotate doc degrees pageNumbers
  = if invalidSelection doc pageNumbers then Throw ErrInvalidPageNumber
    else Ok (rotatedFrom 0 (selected pageNumbers) (degrees mod 360) doc).
Proof.
  intros Hd Hne. unfold rotate. rewrite Hd. cbn [Z.eqb negb].
  unfold load, getPages, save. destruct doc as [|p0 rest]; [congruence|].
  set (doc := p0 :: rest) in *.
  rewrite (normalizeDegrees_multiple _ Hd). cbn [Z.eqb negb].
  rewrite normalizeDegrees_rem.
  assert (Ha : Z.rem (degrees mod 360) 90 = 0)
    by (rewrite <- normalizeDegrees_mod; now apply normalizeDegrees_multiple).
  unfold invalidSelection, getPageCount.
  destruct pageNumbers as [l|].
  - destruct (existsb _ l); [reflexivity|].
    now rewrite rotatePages_rotated.
  - rewrite rotatePages_rotated by assumption. cbn [bind]. f_equal.
    apply rotatedFrom_ext. intros j Hj. now apply listed_all_indices.
Qed.

Lemma rotate_Ok_inv (doc r : Bytes) (degrees : Z) (pageNumbers : option (list Z)) :
  rotate doc degrees pageNumbers = Ok r ->
  Z.rem degrees 90 = 0 /\ doc <> []
  /\ invalidSelection doc pageNumbers = false
  /\ r = rotatedFrom 0 (selected pageNumbers) (degrees mod 360) doc.
Proof.
  intros H.
  assert (Hd : Z.rem degrees 90 = 0).
  { unfold rotate in H. destruct (Z.eqb_spec (Z.rem degrees 90) 0); [assumption|].
    discriminate. }
  assert (Hne : doc <> []).
  { intros ->. unfold rotate in H. rewrite Hd in H. discriminate. }
  rewrite rotate_closed_form in H by assumption.
  destruct (invalidSelection doc pageNumbers); [discriminate|].
  injection H as <-. auto.
Qed.

(** C7: [rotate] sets the rotation of every selected page to
    [degrees mod 360], whatever it was, and leaves the other pages alone;
    [rotate D 360] is [rotate D 0]; and rotating again with the same degrees
    and selection changes nothing. *)
Theorem rotate_absolute_idempotent (D : Bytes) (degrees : Z)
  (pageNumbers : option (list Z)) :
  rotate D 360 pageNumbers = rotate D 0 pageNumbers
  /\ forall D' : Bytes,
       rotate D degrees pageNumbers = Ok D' ->
       length D' = length D
       /\ (forall (n : nat) (p : Page),
             nth_error D n = Some p ->
             nth_error D' n
             = Some (if selected pageNumbers (Z.of_nat n)
                     then {| content := content p; rotation := degrees mod 360 |}
                     else p))
       /\ rotate D' degrees pageNumbers = Ok D'.
Proof.
  split; [reflexivity|].
  intros D' H. apply rotate_Ok_inv in H. destruct H as (Hd & Hne & Hsel & ->).
  split; [apply rotatedFrom_length|]. split.
  - intros n p Hn. now rewrite (@rotatedFrom_nth _ 0 _ _ _ _ Hn).
  - rewrite rotate_closed_form.
    + replace (invalidSelection _ pageNumbers) with false.
      * now rewrite rotatedFrom_idempotent.
      * rewrite <- Hsel. unfold invalidSelection, getPageCount.
        now rewrite rotatedFrom_length.
    + assumption.
    + intros E. apply (f_equal (@length Page)) in E.
      rewrite rotatedFrom_length in E. destruct D; [congruence|discriminate].
Qed.

Lemma rotate_absolute_idempotent_witness :
  rotate (docOf [10; 11; 12]) 270 (Some [0; 2])
  = Ok [ {| content := 10; rotation := 270 |}; pageOf 11;
         {| content := 12; rotation := 270 |} ]
  /\ rotate [ {| content := 10; rotation := 270 |}; pageOf 11;
              {| content := 12; rotation := 270 |} ] 270 (Some [0; 2])
     = Ok [ {| content := 10; rotation := 270 |}; pageOf 11;
            {| content := 12; rotation := 270 |} ].
Proof.
  assert (H : rotate (docOf [10; 11; 12]) 270 (Some [0; 2])
              = Ok [ {| content := 10; rotation := 270 |}; pageOf 11;
                     {| content := 12; rotation := 270 |} ]) by reflexivity.
  split; [exact H|].
  exact (proj2 (proj2 (proj2 (rotate_absolute_idempotent
                                (docOf [10; 11; 12]) 270 (Some [0; 2])) _ H))).
Defined.

(** C10: on a document without pages [rotate] always throws and never
    returns the empty document: with degrees a multiple of 90 the error is
    the no-pages one, with or without a page list (with other degrees the
    degrees check has thrown before). *)
Theorem rotate_empty_document_throws (degrees : Z) (pageNumbers : option (list Z)) :
  rotate [] degrees pageNumbers
  = (if Z.rem degrees 90 =? 0 then Throw ErrNoPagesToRotate
     else Throw ErrRotationNotMultiple)
  /\ isOk (rotate [] degrees pageNumbers) = false
  /\ rotate [] 90 None = Throw ErrNoPagesToRotate
  /\ rotate [] 90 pageNumbers = Throw ErrNoPagesToRotate.
Proof.
  unfold rotate. destruct (Z.rem degrees 90 =? 0); repeat split.
Qed.

(** ** move *)

Lemma inRange_true (i lo hi : Z) : lo <= i <= hi -> inRange i lo hi = true.
Proof. intros H. unfold inRange. apply andb_true_iff. split; apply Z.leb_le; lia. Qed.

Lemma inRange_false (i lo hi : Z) : i < lo \/ hi < i -> inRange i lo hi = false.
Proof.
  intros H. unfold inRange. apply andb_false_iff.
  destruct H; [left|right]; apply Z.leb_gt; lia.
Qed.

Lemma insert_remove_at (w : list Page) (a : nat) (page : Page) :
  (a <= length w)%nat ->
  let r := firstn a w ++ page :: skipn a w in
  length r = S (length w)
  /\ nth_error r a = Some page
  /\ firstn a r ++ skipn (S a) r = w.
Proof.
  intros Ha r. subst r.
  assert (Hl : length (firstn a w) = a) by (rewrite length_firstn; lia).
  repeat split.
  - rewrite length_app. cbn [length]. rewrite Hl, length_skipn. lia.
  - rewrite nth_error_app2 by lia. rewrite Hl, Nat.sub_diag. reflexivity.
  - rewrite firstn_app, skipn_app, Hl, Nat.sub_diag.
    replace (S a - a)%nat with 1%nat by lia.
    rewrite firstn_firstn, Nat.min_id.
    rewrite (@skipn_all2 _ (S a) (firstn a w)) by lia.
    cbn [firstn skipn app]. rewrite app_nil_r. apply firstn_skipn.
Qed.

(** C8: for valid [from] and [to], [move] with [from = to] returns the
    document as it is; otherwise the page at [from] is removed and put back
    at index [to - 1] when [from < to] and at [to] otherwise, the other pages
    keeping their order. *)
Theorem move_page (D : Bytes) (from to : Z) :
  validIndex D from ->
  validIndex D to ->
  (from = to -> move D from to = Ok D)
  /\ (from <> to ->
      let adjustedTo := if from <? to then to - 1 else to in
      exists (page : Page) (without r : Bytes),
        nth_error D (Z.to_nat from) = Some page
        /\ removePage D from = Ok without
        /\ insertPage without adjustedTo page = Ok r
        /\ move D from to = Ok r
        /\ length r = length D
        /\ nth_error r (Z.to_nat adjustedTo) = Some page
        /\ removePage r adjustedTo = Ok without).
Proof.
  unfold validIndex, getPageCount. intros Hf Ht.
  assert (Hguard : (from <? 0) || (from >=? getPageCount D)
                   || (to <? 0) || (to >=? getPageCount D) = false).
  { unfold getPageCount. rewrite !Z.geb_leb.
    repeat (apply orb_false_iff; split);
      first [apply Z.ltb_ge | apply Z.leb_gt]; lia. }
  split.
  - intros ->. unfold move, load. rewrite Hguard, Z.eqb_refl, save_pages; [reflexivity|].
    apply length_not_nil. lia.
  - intros Hne. set (adjustedTo := if from <? to then to - 1 else to).
    destruct (nth_error D (Z.to_nat from)) as [page|] eqn:Hp;
      [|apply nth_error_None in Hp; lia].
    set (without := firstn (Z.to_nat from) D ++ skipn (S (Z.to_nat from)) D).
    assert (Hlw : length without = (length D - 1)%nat).
    { unfold without. rewrite length_app, length_firstn, length_skipn. lia. }
    assert (Ha : 0 <= adjustedTo <= Z.of_nat (length without)).
    { unfold adjustedTo. destruct (Z.ltb_spec from to); lia. }
    destruct (@insert_remove_at without (Z.to_nat adjustedTo) page) as (H1 & H2 & H3);
      [lia|].
    set (r := firstn (Z.to_nat adjustedTo) without
              ++ page :: skipn (Z.to_nat adjustedTo) without) in *.
    assert (Hrm : removePage D from = Ok without).
    { unfold removePage, getPageCount. rewrite inRange_true by lia. reflexivity. }
    assert (Hins : insertPage without adjustedTo page = Ok r).
    { unfold insertPage, getPageCount. rewrite inRange_true by lia. reflexivity. }
    exists page, without, r. repeat split; trivial.
    + unfold move, load. rewrite Hguard.
      replace (from =? to) with false by (symmetry; apply Z.eqb_neq; assumption).
      replace (getPage D from) with (Ok page).
      * cbn [bind]. rewrite Hrm. cbn [bind]. fold adjustedTo. rewrite Hins.
        cbn [bind]. rewrite save_pages; [reflexivity|].
        apply length_not_nil. lia.
      * symmetry. rewrite <- (Z2Nat.id from) by lia. now apply getPage_nth.
    + lia.
    + unfold removePage, getPageCount. rewrite inRange_true by lia.
      now rewrite H3.
Qed.

Lemma move_page_witness :
  validIndex (docOf [10; 11; 12; 13]) 0
  /\ validIndex (docOf [10; 11; 12; 13]) 2
  /\ move (docOf [10; 11; 12; 13]) 2 2 = Ok (docOf [10; 11; 12; 13])
  /\ exists (page : Page) (without r : Bytes),
       nth_error (docOf [10; 11; 12; 13]) (Z.to_nat 0) = Some page
       /\ removePage (docOf [10; 11; 12; 13]) 0 = Ok without
       /\ insertPage without (2 - 1) page = Ok r
       /\ move (docOf [10; 11; 12; 13]) 0 2 = Ok r
       /\ length r = length (docOf [10; 11; 12; 13])
       /\ nth_error r (Z.to_nat (2 - 1)) = Some page
       /\ removePage r (2 - 1) = Ok without.
Proof.
  assert (V0 : validIndex (docOf [10; 11; 12; 13]) 0)
    by (unfold validIndex, getPageCount; simpl; lia).
  assert (V2 : validIndex (docOf [10; 11; 12; 13]) 2)
    by (unfold validIndex, getPageCount; simpl; lia).
  split; [exact V0|]. split; [exact V2|]. split.
  - exact (proj1 (move_page V2 V2) eq_refl).
  - apply (proj2 (move_page V0 V2)). discriminate.
Defined.

(** ** insert *)

Lemma insertLoop_reject (currentPdf : Bytes) (offset : Z) (e : InsertOp)
  (rest : list InsertOp) :
  insPosition e + offset < 0 \/ getPageCount currentPdf < insPosition e + offset ->
  insertLoop currentPdf offset (e :: rest) = Throw ErrInvalidPosition.
Proof.
  intros H. cbn [insertLoop]. unfold load.
  replace ((insPosition e + offset <? 0)
           || (insPosition e + offset >? getPageCount currentPdf)) with true;
    [reflexivity|].
  symmetry. apply orb_true_iff. rewrite Z.gtb_ltb.
  destruct H; [left|right]; apply Z.ltb_lt; lia.
Qed.

Lemma insertLoop_step (currentPdf : Bytes) (offset : Z) (e : InsertOp)
  (rest : list InsertOp) :
  0 <= insPosition e + offset <= getPageCount currentPdf ->
  insertLoop currentPdf offset (e :: rest)
  = insertLoop (save (firstn (Z.to_nat (insPosition e + offset)) currentPdf
                      ++ insPdf e
                      ++ skipn (Z.to_nat (insPosition e + offset)) currentPdf))
      (offset + getPageCount (insPdf e)) rest.
Proof.
  intros H. cbn [insertLoop]. unfold load, create.
  set (a := insPosition e + offset) in *.
  replace ((a <? 0) || (a >? getPageCount currentPdf)) with false.
  2:{ symmetry. apply orb_false_iff. rewrite Z.gtb_ltb.
      split; apply Z.ltb_ge; lia. }
  match goal with
  | |- bind ?X _ = _ =>
      assert (Hbefore : X = Ok (firstn (Z.to_nat a) currentPdf))
  end.
  { rewrite Z.gtb_ltb. destruct (Z.ltb_spec 0 a) as [Ha|Ha].
    - rewrite copyPages_arrayFrom by lia. cbn [bind Z.to_nat skipn].
      now rewrite addPages_app.
    - replace a with 0 by lia. reflexivity. }
  rewrite Hbefore, bind_Ok, copyPages_all, bind_Ok.
  match goal with
  | |- bind ?X _ = _ =>
      assert (Hafter : X = Ok ((firstn (Z.to_nat a) currentPdf ++ insPdf e)
                               ++ skipn (Z.to_nat a) currentPdf))
  end.
  { destruct (Z.ltb_spec a (getPageCount currentPdf)) as [Ha|Ha].
    - rewrite copyPages_arrayFrom by lia. cbn [bind]. rewrite !addPages_app.
      rewrite (@firstn_all2 _ (Z.to_nat (getPageCount currentPdf - a)));
        [reflexivity|].
      rewrite length_skipn. unfold getPageCount. lia.
    - rewrite skipn_all2 by (unfold getPageCount in *; lia).
      now rewrite addPages_app, app_nil_r. }
  rewrite Hafter, bind_Ok, <- app_assoc. reflexivity.
Qed.

Lemma forallb_perm (A : Type) (f : A -> bool) (l l' : list A) :
  Permutation l l' -> forallb f l = forallb f l'.
Proof.
  intros HP. apply eq_true_iff_eq. rewrite !forallb_forall.
  split; intros H x Hx; apply H.
  - now apply Permutation_in with l'; [symmetry|].
  - now apply Permutation_in with l.
Qed.

Lemma sort_byPosition_sorted (inserts : list InsertOp) :
  StronglySorted (fun a b => insPosition a <= insPosition b) (sort byPosition inserts).
Proof.
  assert (H : StronglySorted (fun a b => byPosition a b <= 0) (sort byPosition inserts))
    by (apply sort_sorted; unfold byPosition; intros; lia).
  induction H as [|x l _ IH Hall]; constructor; [exact IH|].
  eapply Forall_impl; [|exact Hall]. unfold byPosition. simpl. intros; lia.
Qed.



Section InsertLoop.

Variable base : Bytes.

Lemma insertLoop_weave (es : list InsertOp) :
  forall (A : list Page) (q off : Z),
    StronglySorted (fun a b => insPosition a <= insPosition b) es ->
    Forall (fun e => q <= insPosition e) es ->
    0 <= q <= getPageCount base ->
    0 <= off ->
    getPageCount A = q + off ->
    A ++ skipn (Z.to_nat q) base <> [] \/ Forall (fun e => insPdf e <> []) es ->
    insertLoop (A ++ skipn (Z.to_nat q) base) off es
    = if forallb (fun e => insPosition e <=? getPageCount base) es
      then Ok (A ++ weave base q es)
      else Throw ErrInvalidPosition.
Proof.
  induction es as [|e rest IH]; intros A q off Hs Hq Hqb Hoff HA Hpg; [reflexivity|].
  inversion Hs as [|? ? Hs' Hle]; subst. inversion Hq as [|? ? Hqe Hq']; subst.
  set (p := insPosition e) in *.
  assert (Hcur : getPageCount (A ++ skipn (Z.to_nat q) base)
                 = getPageCount base + off).
  { rewrite getPageCount_app, HA. unfold getPageCount.
    rewrite length_skipn. unfold getPageCount in Hqb. lia. }
  cbn [forallb]. fold p. destruct (Z.leb_spec p (getPageCount base)) as [Hp|Hp].
  - cbn [andb]. rewrite insertLoop_step by (fold p; lia). fold p.
    unfold getPageCount in HA, Hqb, Hp.
    assert (Hfirst : firstn (Z.to_nat (p + off)) (A ++ skipn (Z.to_nat q) base)
                     = A ++ pagesBetween base q (p - 1)).
    { rewrite firstn_app, firstn_all2 by lia. unfold pagesBetween.
      do 2 f_equal. lia. }
    assert (Hskip : skipn (Z.to_nat (p + off)) (A ++ skipn (Z.to_nat q) base)
                    = skipn (Z.to_nat p) base).
    { rewrite skipn_app, skipn_all2 by lia. cbn [app].
      rewrite skipn_skipn. f_equal. lia. }
    assert (Hnew : firstn (Z.to_nat (p + off)) (A ++ skipn (Z.to_nat q) base)
                   ++ insPdf e
                   ++ skipn (Z.to_nat (p + off)) (A ++ skipn (Z.to_nat q) base)
                   <> []).
    { intros E. apply app_eq_nil in E. destruct E as [E1 E2].
      apply app_eq_nil in E2. destruct E2 as [E2 E3].
      destruct Hpg as [Hcurne|Hdocs].
      - apply Hcurne.
        rewrite <- (firstn_skipn (Z.to_nat (p + off)) (A ++ skipn (Z.to_nat q) base)).
        now rewrite E1, E3.
      - inversion Hdocs; subst. contradiction. }
    rewrite (save_pages Hnew). rewrite Hfirst, Hskip in Hnew |- *.
    replace ((A ++ pagesBetween base q (p - 1)) ++ insPdf e ++ skipn (Z.to_nat p) base)
      with ((A ++ pagesBetween base q (p - 1) ++ insPdf e) ++ skipn (Z.to_nat p) base)
      in Hnew |- * by (now rewrite <- !app_assoc).
    rewrite IH.
    + destruct (forallb _ rest); [|reflexivity].
      cbn [weave]. fold p. now rewrite <- !app_assoc.
    + assumption.
    + eapply Forall_impl; [|exact Hle]. simpl. intros x Hx. exact Hx.
    + unfold getPageCount. lia.
    + unfold getPageCount. lia.
    + rewrite !getPageCount_app. unfold pagesBetween, getPageCount.
      rewrite length_firstn, length_skipn. lia.
    + left. exact Hnew.
  - cbn [andb]. apply insertLoop_reject. fold p. lia.
Qed.

Lemma insert_closed_form (inserts : list InsertOp) :
  base <> [] \/ Forall (fun e => insPdf e <> []) inserts ->
  insert base inserts
  = if forallb (validPositionb base) inserts
    then Ok (save (weave base 0 (sort byPosition inserts)))
    else Throw ErrInvalidPosition.
Proof.
  intros Hpg. unfold insert, load.
  rewrite (forallb_perm (validPositionb base) (Permutation_sym (sort_perm byPosition inserts))).
  assert (Hs := sort_byPosition_sorted inserts).
  assert (Hpg' : base <> [] \/ Forall (fun e => insPdf e <> []) (sort byPosition inserts)).
  { destruct Hpg as [H|H]; [now left | right].
    eapply Permutation_Forall; [symmetry; apply sort_perm | exact H]. }
  destruct (sort byPosition inserts) as [|e rest] eqn:E; [reflexivity|].
  destruct (Z.ltb_spec (insPosition e) 0) as [Hneg|Hpos].
  - rewrite insertLoop_reject by lia. cbn [bind forallb]. unfold validPositionb at 1.
    replace (0 <=? insPosition e) with false by (symmetry; apply Z.leb_gt; lia).
    reflexivity.
  - assert (Hall : Forall (fun x => 0 <= insPosition x) (e :: rest)).
    { inversion Hs as [|? ? _ Hle]; subst. constructor; [lia|].
      eapply Forall_impl; [|exact Hle]. simpl. intros; lia. }
    generalize (@insertLoop_weave (e :: rest) [] 0 0 Hs Hall).
    cbn [app Z.to_nat skipn]. intros ->;
      try (unfold getPageCount; simpl; lia); [|exact Hpg'].
    replace (forallb (validPositionb base) (e :: rest))
      with (forallb (fun x => insPosition x <=? getPageCount base) (e :: rest)).
    + destruct (forallb _ (e :: rest)); reflexivity.
    + apply eq_true_iff_eq. rewrite !forallb_forall.
      rewrite Forall_forall in Hall.
      split; intros H x Hx; specialize (H _ Hx); specialize (Hall _ Hx).
      * unfold validPositionb. rewrite H. apply andb_true_iff. split; [|reflexivity].
        apply Z.leb_le. lia.
      * unfold validPositionb in H. apply andb_true_iff in H. tauto.
Qed.

End InsertLoop.

Lemma weave_perm (base : Bytes) (es : list InsertOp) :
  forall q : Z,
    StronglySorted (fun a b => insPosition a <= insPosition b) es ->
    Forall (fun x => q <= insPosition x <= getPageCount base) es ->
    0 <= q ->
    Permutation (weave base q es)
      (skipn (Z.to_nat q) base ++ concat (map insPdf es)).
Proof.
  induction es as [|e rest IH]; intros q Hs Hall Hq.
  - cbn. now rewrite app_nil_r.
  - inversion Hs as [|? ? Hs' Hle]; subst. inversion Hall as [|? ? He Hall']; subst.
    cbn [weave map concat].
    rewrite (IH (insPosition e)); [| assumption | | lia].
    + unfold pagesBetween.
      replace (Z.to_nat (insPosition e - 1 - q + 1))
        with (Z.to_nat (insPosition e - q)) by lia.
      rewrite <- (firstn_skipn (Z.to_nat (insPosition e - q)) (skipn (Z.to_nat q) base)) at 2.
      rewrite skipn_skipn.
      replace (Z.to_nat (insPosition e - q) + Z.to_nat q)%nat
        with (Z.to_nat (insPosition e)) by lia.
      rewrite <- !app_assoc. apply Permutation_app_head.
      rewrite !app_assoc. apply Permutation_app_tail, Permutation_app_comm.
    + rewrite Forall_forall in *. intros x Hx.
      specialize (Hle _ Hx). specialize (Hall' _ Hx). simpl in Hle. lia.
Qed.

Lemma weave_not_nil (base : Bytes) (es : list InsertOp) :
  StronglySorted (fun a b => insPosition a <= insPosition b) es ->
  Forall (fun x => 0 <= insPosition x <= getPageCount base) es ->
  base <> [] \/ (es <> [] /\ Forall (fun e => insPdf e <> []) es) ->
  weave base 0 es <> [].
Proof.
  intros Hs Hall Hpg E.
  assert (HP := @weave_perm base es 0 Hs Hall ltac:(lia)).
  rewrite E in HP. cbn [Z.to_nat skipn] in HP.
  apply Permutation_nil in HP. apply app_eq_nil in HP. destruct HP as [Hb Hc].
  destruct Hpg as [Hbase|[Hne Hdocs]]; [contradiction|].
  destruct es as [|e rest]; [congruence|].
  inversion Hdocs; subst. cbn [map concat] in Hc.
  apply app_eq_nil in Hc. tauto.
Qed.


Section Weave.

Variable base : Bytes.




End Weave.






(** ** Positions and page references out of range *)

Lemma Exists_not_Forall (A : Type) (P : A -> Prop) (l : list A) :
  Exists (fun x => ~ P x) l -> ~ Forall P l.
Proof.
  intros HE HF. apply Exists_exists in HE. destruct HE as (x & Hin & Hx).
  rewrite Forall_forall in HF. exact (Hx (HF _ Hin)).
Qed.

Lemma insert_invalid_position (base : Bytes) (inserts : list InsertOp) :
  base <> [] \/ Forall (fun e => insPdf e <> []) inserts ->
  Exists (fun e => ~ validPosition base e) inserts ->
  insert base inserts = Throw ErrInvalidPosition.
Proof.
  intros Hpg HE. rewrite insert_closed_form by exact Hpg.
  replace (forallb (validPositionb base) inserts) with false; [reflexivity|].
  symmetry. apply not_true_is_false. intros HF.
  apply Exists_exists in HE. destruct HE as (e & Hin & He).
  rewrite forallb_forall in HF. specialize (HF _ Hin).
  unfold validPositionb in HF. apply andb_true_iff in HF.
  destruct HF as [H1 H2]. apply Z.leb_le in H1, H2.
  apply He. unfold validPosition. lia.
Qed.

(** C2 (amended): an integer position given to [mergeAdvanced] is clamped
    into [0, pageCount] of the destination and never makes the call fail:
    the call succeeds exactly when it succeeds with position [end].
    [insert] does not clamp: when the base has a page or no inserted
    document is page-less, a position outside [0, pageCount] of the base
    makes the call throw the invalid-position error.  Page references out of range are rejected by
    [remove], [rotate] and [move] with the invalid-page-number error. *)
Theorem position_clamped_or_rejected :
  (forall (Template Input : Type) (emptyInput : Input)
          (generate : Template -> list Input -> Result Bytes)
          (items : list (MergeItem Template Input)) (p n : Z),
      (0 <= n -> 0 <= insertIndexOf p n <= n)
      /\ isOk (mergeAdvanced emptyInput generate items {| position := Some (PIndex p) |})
         = isOk (mergeAdvanced emptyInput generate items {| position := Some PEnd |}))
  /\ (forall (base : Bytes) (inserts : list InsertOp),
        base <> [] \/ Forall (fun e => insPdf e <> []) inserts ->
        Exists (fun e => ~ validPosition base e) inserts ->
        insert base inserts = Throw ErrInvalidPosition)
  /\ (forall (D : Bytes) (pages : list Z),
        Exists (fun i => ~ validIndex D i) pages ->
        remove D pages = Throw ErrInvalidPageNumber)
  /\ (forall (D : Bytes) (degrees : Z) (pages : list Z),
        D <> [] -> Z.rem degrees 90 = 0 ->
        Exists (fun i => ~ validIndex D i) pages ->
        rotate D degrees (Some pages) = Throw ErrInvalidPageNumber)
  /\ (forall (D : Bytes) (from to : Z),
        ~ validIndex D from \/ ~ validIndex D to ->
        move D from to = Throw ErrInvalidPageNumber).
Proof.
  split; [|split; [|split; [|split]]].
  - intros Template Input emptyInput generate items p n. split.
    + apply insertIndexOf_bounds.
    + destruct items as [|item items]; [reflexivity|].
      now rewrite !mergeAdvanced_batch.
  - apply insert_invalid_position.
  - intros D pages HE. unfold remove.
    destruct pages as [|i rest]; [inversion HE|].
    unfold load. now rewrite (existsb_invalid_true (Exists_not_Forall HE)).
  - intros D degrees pages Hne Hd HE.
    rewrite rotate_closed_form by assumption. unfold invalidSelection.
    now rewrite (existsb_invalid_true (Exists_not_Forall HE)).
  - intros D from to H. unfold move, load.
    replace ((from <? 0) || (from >=? getPageCount D)
             || (to <? 0) || (to >=? getPageCount D)) with true; [reflexivity|].
    symmetry. unfold validIndex in H. rewrite !Z.geb_leb.
    destruct (Z.ltb_spec from 0); [reflexivity|].
    destruct (Z.leb_spec (getPageCount D) from); [reflexivity|].
    destruct (Z.ltb_spec to 0); [reflexivity|].
    destruct (Z.leb_spec (getPageCount D) to); [reflexivity|].
    exfalso. destruct H as [H|H]; apply H; lia.
Qed.

Lemma position_clamped_or_rejected_witness :
  isOk (mergeAdvanced tt renderEach
          [PdfItem (docOf [1; 2]) None; TemplateItem 9 (Some [tt])]
          {| position := Some (PIndex 7) |})
  = true
  /\ insert (docOf [10; 11]) [ {| insPdf := docOf [20]; insPosition := 3 |} ]
     = Throw ErrInvalidPosition
  /\ remove (docOf [10; 11]) [0; 2] = Throw ErrInvalidPageNumber
  /\ rotate (docOf [10; 11]) 90 (Some [2]) = Throw ErrInvalidPageNumber
  /\ move (docOf [10; 11]) 0 2 = Throw ErrInvalidPageNumber.
Proof.
  destruct position_clamped_or_rejected as (Hm & Hi & Hr & Hrot & Hmv).
  split; [|split; [|split; [|split]]].
  - rewrite (proj2 (Hm _ _ tt renderEach
                      [PdfItem (docOf [1; 2]) None; TemplateItem 9 (Some [tt])] 7 0)).
    reflexivity.
  - apply Hi; [left; discriminate|].
    apply Exists_cons_hd. unfold validPosition, getPageCount. simpl. lia.
  - apply Hr. apply Exists_cons_tl, Exists_cons_hd.
    unfold validIndex, getPageCount. simpl. lia.
  - apply Hrot; [discriminate | reflexivity |].
    apply Exists_cons_hd. unfold validIndex, getPageCount. simpl. lia.
  - apply Hmv. right. unfold validIndex, getPageCount. simpl. lia.
Defined.

(** C2 as stated fails for [insert]: a position beyond the page count is
    not clamped to the page count, the call throws. *)
Lemma insert_position_not_clamped :
  insertIndexOf 5 (getPageCount (docOf [10])) = 1
  /\ insert (docOf [10]) [ {| insPdf := docOf [20]; insPosition := 1 |} ]
     = Ok (docOf [10; 20])
  /\ insert (docOf [10]) [ {| insPdf := docOf [20]; insPosition := 5 |} ]
     = Throw ErrInvalidPosition.
Proof. repeat split. Qed.

(** ** Empty lists *)

(** C9 (amended): [insert] with an empty list does not throw: for a base
    document that has a page it returns the base as it is (same pages, order
    and rotations); a page-less base is returned serialized, as one blank
    page.  [merge], [mergeAdvanced], [mergeWithTemplates], [split], [remove]
    and [organize] all reject an empty list with an empty-input error. *)
Theorem insert_empty_list_returns_base (base : Bytes) :
  insert base [] = Ok (save base)
  /\ (base <> [] -> insert base [] = Ok base)
  /\ (forall (Template Input : Type) (emptyInput : Input)
             (generate : Template -> list Input -> Result Bytes)
             (options : MergeOptions),
         (exists err, merge emptyInput generate [] options = Throw err
                      /\ category err = EmptyInput)
         /\ (exists err, mergeAdvanced emptyInput generate [] options = Throw err
                         /\ category err = EmptyInput)
         /\ (exists err, mergeWithTemplates emptyInput generate base [] = Throw err
                         /\ category err = EmptyInput))
  /\ (exists err, split base [] = Throw err /\ category err = EmptyInput)
  /\ (exists err, remove base [] = Throw err /\ category err = EmptyInput)
  /\ (exists err, organize base [] = Throw err /\ category err = EmptyInput).
Proof.
  split; [reflexivity|]. split.
  - intros Hne. unfold insert. cbn [sort insertLoop bind]. unfold load.
    now rewrite save_pages.
  - split.
    + intros. repeat split; eexists; split; reflexivity.
    + repeat split; eexists; split; reflexivity.
Qed.

Lemma insert_empty_list_returns_base_witness :
  insert (docOf [10; 11]) [] = Ok (docOf [10; 11]).
Proof.
  apply (proj1 (proj2 (insert_empty_list_returns_base (docOf [10; 11])))).
  discriminate.
Defined.

(** C9 as stated fails for a base without pages: the result has one page,
    the blank page. *)
Lemma insert_empty_list_pageless_base :
  insert [] [] = Ok [blankPage]
  /\ getPageCount [blankPage] <> getPageCount [].
Proof. split; [reflexivity | discriminate]. Qed.

(** * Further properties of the operations *)

(** ** mergeAdvanced, merge, mergeWithTemplates *)

Lemma copyPages_pick (doc : t) (indices : list Z) :
  forallb (fun i => (0 <=? i) && (i <? getPageCount doc)) indices = true ->
  copyPages doc indices = Ok (pickPages doc indices).
Proof.
  induction indices as [|i rest IH]; intros H; [reflexivity|].
  cbn [forallb] in H. apply andb_true_iff in H. destruct H as [Hi Hrest].
  apply andb_true_iff in Hi. destruct Hi as [H0 Hn].
  apply Z.leb_le in H0. apply Z.ltb_lt in Hn. unfold getPageCount in Hn.
  cbn [copyPages]. unfold pickPages. cbn [flat_map]. fold (pickPages doc rest).
  destruct (nth_error doc (Z.to_nat i)) as [p|] eqn:Hp;
    [|apply nth_error_None in Hp; lia].
  rewrite <- (Z2Nat.id i) at 1 by lia.
  rewrite (getPage_nth _ _ Hp), bind_Ok, IH by assumption. reflexivity.
Qed.

Lemma pickPages_length (doc : t) (indices : list Z) :
  forallb (fun i => (0 <=? i) && (i <? getPageCount doc)) indices = true ->
  length (pickPages doc indices) = length indices.
Proof.
  induction indices as [|i rest IH]; intros H; [reflexivity|].
  cbn [forallb] in H. apply andb_true_iff in H. destruct H as [Hi Hrest].
  apply andb_true_iff in Hi. destruct Hi as [H0 Hn].
  apply Z.leb_le in H0. apply Z.ltb_lt in Hn. unfold getPageCount in Hn.
  unfold pickPages. cbn [flat_map]. fold (pickPages doc rest).
  destruct (nth_error doc (Z.to_nat i)) as [p|] eqn:Hp;
    [|apply nth_error_None in Hp; lia].
  cbn [app length]. now rewrite IH.
Qed.

Lemma invalid_index_check (doc : t) (indices : list Z) :
  existsb (fun idx => (idx <? 0) || (idx >? getPageCount doc - 1)) indices
  = negb (forallb (fun i => (0 <=? i) && (i <? getPageCount doc)) indices).
Proof.
  induction indices as [|i rest IH]; [reflexivity|].
  cbn [existsb forallb]. rewrite IH, negb_andb. f_equal.
  rewrite Z.gtb_ltb.
  destruct (Z.ltb_spec i 0), (Z.leb_spec 0 i),
    (Z.ltb_spec (getPageCount doc - 1) i), (Z.ltb_spec i (getPageCount doc));
    try reflexivity; lia.
Qed.

Section MergeFurther.

Variable Template : Type.
Variable Input : Type.
Variable emptyInput : Input.
Variable generate : Template -> list Input -> Result Bytes.

Local Notation "'itemOf'" := (@documentItem Template Input).

(** X1: the position option has no influence on what [mergeAdvanced]
    returns, result or error. *)
Theorem mergeAdvanced_position_irrelevant
  (items : list (MergeItem Template Input)) (pos pos' : option Position) :
  mergeAdvanced emptyInput generate items {| position := pos |}
  = mergeAdvanced emptyInput generate items {| position := pos' |}.
Proof.
  destruct items as [|item items]; [reflexivity|].
  now rewrite !mergeAdvanced_batch.
Qed.

Lemma itemPages_pdf (doc : Bytes) (pages : option (list Z)) :
  itemPages emptyInput generate (PdfItem doc pages)
  = if validPageList doc pages then Ok (chosenPages doc pages)
    else Throw ErrInvalidPageIndex.
Proof.
  destruct pages as [l|].
  - cbn [itemPages validPageList chosenPages]. unfold load.
    rewrite invalid_index_check.
    destruct (forallb _ l) eqn:E; cbn [negb]; [|reflexivity].
    now apply copyPages_pick.
  - apply (itemPages_whole_pdf emptyInput generate).
Qed.

Lemma collectPages_pdf_items (sel : list (Bytes * option (list Z))) (acc : list Page) :
  collectPages emptyInput generate (map itemOf sel) acc
  = if forallb (fun s => validPageList (fst s) (snd s)) sel
    then Ok (acc ++ concat (map (fun s => chosenPages (fst s) (snd s)) sel))
    else Throw ErrInvalidPageIndex.
Proof.
  revert acc. induction sel as [|s sel IH]; intros acc.
  - cbn. now rewrite app_nil_r.
  - cbn [map collectPages forallb concat]. unfold documentItem at 1.
    rewrite itemPages_pdf.
    destruct (validPageList (fst s) (snd s)); cbn [bind andb]; [|reflexivity].
    rewrite IH. destruct (forallb _ sel); [|reflexivity].
    now rewrite app_assoc.
Qed.

(** X2: [mergeAdvanced] on document items only: if some page list names a
    page that does not exist, the call throws the invalid-page-index error
    and returns nothing; otherwise the result is, item after item, the listed
    pages in the order listed (all pages when no list is given), serialized:
    when no page at all is chosen the result is one blank page. *)
Theorem mergeAdvanced_document_items
  (s : Bytes * option (list Z)) (sel : list (Bytes * option (list Z)))
  (options : MergeOptions) :
  mergeAdvanced emptyInput generate (map itemOf (s :: sel)) options
  = if forallb (fun s => validPageList (fst s) (snd s)) (s :: sel)
    then Ok (save (concat (map (fun s => chosenPages (fst s) (snd s)) (s :: sel))))
    else Throw ErrInvalidPageIndex.
Proof.
  destruct options as [pos]. cbn [map].
  rewrite mergeAdvanced_batch.
  change (itemOf s :: map itemOf sel) with (map itemOf (s :: sel)).
  rewrite (collectPages_pdf_items (s :: sel) []).
  destruct (forallb _ (s :: sel)); reflexivity.
Qed.

Lemma mergeTemplatesLoop_renders (templates : list (TemplateEntry Template Input))
  (currentPdf : Bytes) :
  currentPdf <> [] ->
  mergeTemplatesLoop emptyInput generate currentPdf templates
  = (rendered <- renderEntries emptyInput generate templates ;;
     Ok (currentPdf ++ rendered)).
Proof.
  revert currentPdf.
  induction templates as [|e rest IH]; intros currentPdf Hne.
  - cbn. now rewrite app_nil_r.
  - cbn [mergeTemplatesLoop renderEntries].
    rewrite mergeAdvanced_pdf_then_template.
    destruct (generate _ _) as [tp|err]; cbn [bind]; [|reflexivity].
    rewrite (save_app_l tp Hne), IH.
    + destruct (renderEntries _ _ rest); cbn [bind]; [|reflexivity].
      now rewrite app_assoc.
    + destruct currentPdf; [congruence | discriminate].
Qed.

(** X3: when the base has a page, or no rendering is page-less,
    [mergeWithTemplates] keeps the base pages first and in order, and
    appends the pages rendered for the entries, entry after entry; a failing
    rendering fails the call; the positions of the entries play no part. *)
Theorem mergeWithTemplates_appends_renderings
  (basePdf : Bytes) (e : TemplateEntry Template Input)
  (rest : list (TemplateEntry Template Input)) :
  basePdf <> [] \/ (forall t i d, generate t i = Ok d -> d <> []) ->
  mergeWithTemplates emptyInput generate basePdf (e :: rest)
  = (rendered <- renderEntries emptyInput generate (e :: rest) ;;
     Ok (basePdf ++ rendered)).
Proof.
  intros [Hne|Hgen]; unfold mergeWithTemplates;
    [now apply mergeTemplatesLoop_renders|].
  destruct basePdf as [|p0 base0];
    [|apply mergeTemplatesLoop_renders; discriminate].
  cbn [mergeTemplatesLoop renderEntries].
  rewrite mergeAdvanced_pdf_then_template.
  destruct (generate _ _) as [tp|err] eqn:E; cbn [bind app]; [|reflexivity].
  assert (Htp : tp <> []) by (eapply Hgen; exact E).
  rewrite (save_pages Htp), (mergeTemplatesLoop_renders _ Htp).
  destruct (renderEntries _ _ rest); reflexivity.
Qed.

(** X4: when the documents of a first merge have a page between them,
    merging its result with further documents is merging all the documents
    at once. *)
Theorem merge_of_merge (pdf : Bytes) (pdfs more : list Bytes)
  (o1 o2 o3 : MergeOptions) :
  concat (pdf :: pdfs) <> [] ->
  (merged <- merge emptyInput generate (pdf :: pdfs) o1 ;;
   merge emptyInput generate (merged :: more) o2)
  = merge emptyInput generate (pdf :: pdfs ++ more) o3.
Proof.
  intros Hne. rewrite merge_concat, bind_Ok, !merge_concat, (save_pages Hne).
  do 2 f_equal. cbn [concat] in *. now rewrite concat_app, app_assoc.
Qed.

Lemma coversFrom_concat (D : Bytes) (ranges : list Range) :
  forall k : Z,
    0 <= k ->
    coversFrom k (getPageCount D) ranges ->
    forallb (validRange (getPageCount D)) ranges = true
    /\ concat (map (rangePages D) ranges) = skipn (Z.to_nat k) D.
Proof.
  induction ranges as [|r rest IH]; intros k Hk Hc.
  - cbn in *. split; [reflexivity|]. subst k. unfold getPageCount.
    rewrite Nat2Z.id. symmetry. apply skipn_all.
  - cbn [coversFrom] in Hc. destruct Hc as (Hs & He & Hrest).
    destruct (IH (endOf (getPageCount D) r + 1)) as [Hv Hcat]; [lia|assumption|].
    split.
    + cbn [forallb]. rewrite Hv, andb_true_r. unfold validRange. rewrite Hs.
      apply andb_true_iff. split; [apply andb_true_iff; split|];
        [apply Z.leb_le | apply Z.leb_le | apply Z.ltb_lt]; lia.
    + cbn [map concat]. rewrite Hcat. unfold rangePages, pagesBetween. rewrite Hs.
      rewrite <- (firstn_skipn (Z.to_nat (endOf (getPageCount D) r - k + 1))
                    (skipn (Z.to_nat k) D)) at 2.
      f_equal. rewrite skipn_skipn. f_equal. lia.
Qed.

(** X5: when the ranges cut the document into consecutive pieces that cover
    all its pages, without gap or overlap, [split] succeeds and merging the
    pieces in order gives the document back. *)
Theorem split_then_merge (D : Bytes) (ranges : list Range) (options : MergeOptions) :
  ranges <> [] ->
  coversFrom 0 (getPageCount D) ranges ->
  exists pieces : list Bytes,
    split D ranges = Ok pieces
    /\ length pieces = length ranges
    /\ merge emptyInput generate pieces options = Ok D.
Proof.
  intros Hne Hc. destruct (@coversFrom_concat D ranges 0) as [Hv Hcat]; [lia|assumption|].
  exists (map (rangePages D) ranges). split; [|split].
  - unfold split. destruct ranges as [|r rest]; [congruence|].
    unfold load, getPages. fold (getPageCount D).
    now rewrite splitLoop_all_or_nothing, Hv.
  - apply length_map.
  - destruct ranges as [|r rest]; [congruence|]. cbn [map].
    rewrite merge_concat. cbn [Z.to_nat skipn] in Hcat. cbn [map] in Hcat.
    transitivity (Ok (save D)); [exact (f_equal (fun x => Ok (save x)) Hcat)|].
    rewrite save_pages; [reflexivity|].
    intros ->. cbn [coversFrom] in Hc. unfold getPageCount in Hc.
    cbn [length Z.of_nat] in Hc. lia.
Qed.

End MergeFurther.

(** ** Sorting a permutation *)

Section SortedUnique.

Variable A : Type.
Variable key : A -> Z.

Lemma sorted_perm_eq (l : list A) :
  forall l' : list A,
    (forall x y, In x l -> In y l -> key x = key y -> x = y) ->
    StronglySorted (fun a b => key a <= key b) l ->
    StronglySorted (fun a b => key a <= key b) l' ->
    Permutation l l' ->
    l = l'.
Proof.
  induction l as [|x l IH]; intros l' Hinj Hs Hs' HP.
  - symmetry. now apply Permutation_nil.
  - destruct l' as [|y l'];
      [apply Permutation_sym, Permutation_nil_cons in HP; contradiction|].
    inversion Hs as [|? ? Hs1 Hx]; subst. inversion Hs' as [|? ? Hs1' Hy]; subst.
    rewrite Forall_forall in Hx, Hy.
    assert (Hyx : key y <= key x).
    { assert (Hin : In x (y :: l'))
        by (apply Permutation_in with (x :: l); [exact HP | now left]).
      destruct Hin as [->|Hin]; [lia | now apply Hy]. }
    assert (Hiny : In y (x :: l))
      by (apply Permutation_in with (y :: l'); [now symmetry | now left]).
    assert (Hxy : key x <= key y)
      by (destruct Hiny as [->|Hin]; [lia | now apply Hx]).
    assert (E : x = y) by (apply Hinj; [now left | exact Hiny | lia]).
    subst y. f_equal. apply IH; trivial.
    + intros a b Ha Hb. apply Hinj; now right.
    + now apply Permutation_cons_inv with x.
Qed.

End SortedUnique.

Lemma StronglySorted_weaken (A : Type) (R R' : A -> A -> Prop) (l : list A) :
  (forall a b, R a b -> R' a b) -> StronglySorted R l -> StronglySorted R' l.
Proof.
  intros HR. induction 1 as [|x l _ IH Hall]; constructor; [exact IH|].
  eapply Forall_impl; [|exact Hall]. apply HR.
Qed.

Lemma sort_descending_sorted (pages : list Z) :
  StronglySorted (fun a b => - a <= - b) (sort descending pages).
Proof.
  apply StronglySorted_weaken with (R := fun a b => descending a b <= 0).
  - unfold descending. intros; lia.
  - apply sort_sorted; unfold descending; intros; lia.
Qed.

Lemma sort_descending_perm (pages pages' : list Z) :
  Permutation pages pages' -> sort descending pages = sort descending pages'.
Proof.
  intros HP. apply (@sorted_perm_eq Z Z.opp).
  - intros x y _ _. lia.
  - apply sort_descending_sorted.
  - apply sort_descending_sorted.
  - rewrite (sort_perm descending pages), (sort_perm descending pages'). exact HP.
Qed.

Lemma existsb_perm (A : Type) (f : A -> bool) (l l' : list A) :
  Permutation l l' -> existsb f l = existsb f l'.
Proof.
  intros HP. apply eq_true_iff_eq. rewrite !existsb_exists.
  split; intros (x & Hin & Hx); exists x; split; trivial.
  - now apply Permutation_in with l.
  - now apply Permutation_in with l'; [symmetry|].
Qed.

(** ** remove *)

(** X6: the order in which the page indices are given to [remove] does not
    matter: a permutation of the list gives the same result or error. *)
Theorem remove_order_irrelevant (D : Bytes) (pages pages' : list Z) :
  Permutation pages pages' -> remove D pages = remove D pages'.
Proof.
  intros HP. unfold remove.
  destruct pages as [|i rest].
  - apply Permutation_nil in HP. now subst.
  - destruct pages' as [|i' rest'];
      [apply Permutation_sym, Permutation_nil_cons in HP; contradiction|].
    rewrite (existsb_perm _ HP), (sort_descending_perm HP). reflexivity.
Qed.

Lemma remove_order_irrelevant_witness :
  remove (docOf [10; 11; 12; 13]) [0; 3; 1] = remove (docOf [10; 11; 12; 13]) [3; 1; 0].
Proof.
  apply remove_order_irrelevant.
  apply perm_trans with [3; 0; 1]; [apply perm_swap | apply perm_skip, perm_swap].
Defined.

Lemma remove_single (D : Bytes) (i : Z) :
  validIndex D i ->
  remove D [i] = Ok (save (firstn (Z.to_nat i) D ++ skipn (S (Z.to_nat i)) D)).
Proof.
  intros Hi. unfold remove, load.
  rewrite existsb_invalid_false by (constructor; [exact Hi | constructor]).
  cbn [sort sortInsert removePages]. unfold removePage.
  unfold validIndex in Hi. rewrite inRange_true by lia. reflexivity.
Qed.

(** X7: a valid index listed twice is not removed twice: after the page at
    [i] has gone, the second removal takes the page that was at [i + 1], and
    the remaining pages are returned serialized (one blank page when none
    remains); if [i] was the last page, the second removal makes the call
    fail inside the library. *)
Theorem remove_same_index_twice (D : Bytes) (i : Z) :
  validIndex D i ->
  remove D [i; i]
  = if i + 1 <? getPageCount D
    then Ok (save (firstn (Z.to_nat i) D ++ skipn (S (S (Z.to_nat i))) D))
    else Throw LibError.
Proof.
  intros Hi. unfold remove, load.
  rewrite existsb_invalid_false by (repeat (constructor; [exact Hi|]); constructor).
  cbn [sort sortInsert]. unfold descending at 1. rewrite Z.sub_diag.
  cbn [Z.leb Z.compare removePages].
  unfold validIndex, getPageCount in *.
  unfold removePage at 1. rewrite inRange_true by (unfold getPageCount; lia).
  cbn [bind]. unfold removePage, getPageCount.
  rewrite length_app, length_firstn, length_skipn.
  destruct (Z.ltb_spec (i + 1) (Z.of_nat (length D))) as [Hlt|Hge].
  - rewrite inRange_true by lia. cbn [bind]. do 2 f_equal.
    rewrite firstn_app, skipn_app, firstn_firstn, length_firstn.
    replace (Nat.min (Z.to_nat i) (Nat.min (Z.to_nat i) (length D)))
      with (Z.to_nat i) by lia.
    replace (Z.to_nat i - Nat.min (Z.to_nat i) (length D))%nat with 0%nat by lia.
    replace (S (Z.to_nat i) - Nat.min (Z.to_nat i) (length D))%nat with 1%nat by lia.
    rewrite (@skipn_all2 _ (S (Z.to_nat i)) (firstn (Z.to_nat i) D))
      by (rewrite length_firstn; lia).
    cbn [firstn app]. rewrite app_nil_r, skipn_skipn, Nat.min_id. reflexivity.
  - rewrite inRange_false by lia. reflexivity.
Qed.

Lemma remove_same_index_twice_witness :
  remove (docOf [10; 11; 12; 13]) [1; 1] = Ok (docOf [10; 13])
  /\ remove (docOf [10; 11; 12; 13]) [3; 3] = Throw LibError.
Proof.
  split.
  - apply (@remove_same_index_twice (docOf [10; 11; 12; 13]) 1).
    unfold validIndex, getPageCount. simpl. lia.
  - apply (@remove_same_index_twice (docOf [10; 11; 12; 13]) 3).
    unfold validIndex, getPageCount. simpl. lia.
Defined.

(** ** insert *)

Lemma insert_one_entry (base pdf : Bytes) (p : Z) :
  0 <= p <= getPageCount base ->
  insert base [ {| insPdf := pdf; insPosition := p |} ]
  = Ok (save (firstn (Z.to_nat p) base ++ pdf ++ skipn (Z.to_nat p) base)).
Proof.
  intros Hp. unfold insert. cbn [sort sortInsert].
  rewrite insertLoop_step by (cbn [insPosition]; lia).
  cbn [insertLoop bind insPosition insPdf]. unfold load.
  now rewrite save_save, Z.add_0_r.
Qed.

(** X8: inserting a single document at a valid position [p] puts its pages
    between the first [p] pages of the base and the rest: position 0
    prepends, position [pageCount] appends; the result is serialized (one
    blank page when the base and the document are both page-less). *)
Theorem insert_single (base pdf : Bytes) (p : Z) :
  0 <= p <= getPageCount base ->
  insert base [ {| insPdf := pdf; insPosition := p |} ]
  = Ok (save (firstn (Z.to_nat p) base ++ pdf ++ skipn (Z.to_nat p) base)).
Proof.
  intros Hp. unfold insert. cbn [sort sortInsert].
  rewrite insertLoop_step by (cbn [insPosition]; lia).
  cbn [insertLoop bind insPosition insPdf]. unfold load.
  now rewrite save_save, Z.add_0_r.
Qed.

Lemma insert_single_witness :
  insert (docOf [10; 11]) [ {| insPdf := docOf [20; 21]; insPosition := 0 |} ]
  = Ok (docOf [20; 21; 10; 11])
  /\ insert (docOf [10; 11]) [ {| insPdf := docOf [20; 21]; insPosition := 2 |} ]
     = Ok (docOf [10; 11; 20; 21]).
Proof.
  split.
  - apply (@insert_single (docOf [10; 11]) (docOf [20; 21]) 0).
    unfold getPageCount. simpl. lia.
  - apply (@insert_single (docOf [10; 11]) (docOf [20; 21]) 2).
    unfold getPageCount. simpl. lia.
Defined.

(** X9: for a document of at least two pages, removing the page at a valid
    index and inserting that page again at the same position gives the
    original document back. *)
Theorem remove_then_insert_restores (D : Bytes) (i : Z) (page : Page) :
  2 <= getPageCount D ->
  0 <= i ->
  nth_error D (Z.to_nat i) = Some page ->
  exists r : Bytes,
    remove D [i] = Ok r
    /\ getPageCount r = getPageCount D - 1
    /\ insert r [ {| insPdf := [page]; insPosition := i |} ] = Ok D.
Proof.
  intros Htwo Hi Hp.
  assert (Hlen : (Z.to_nat i < length D)%nat) by (apply nth_error_Some; congruence).
  assert (Hv : validIndex D i) by (unfold validIndex, getPageCount; lia).
  exists (firstn (Z.to_nat i) D ++ skipn (S (Z.to_nat i)) D).
  assert (Hcount : getPageCount (firstn (Z.to_nat i) D ++ skipn (S (Z.to_nat i)) D)
                   = getPageCount D - 1).
  { unfold getPageCount. rewrite length_app, length_firstn, length_skipn. lia. }
  split; [|split; [exact Hcount|]].
  - rewrite (remove_single Hv), save_pages; [reflexivity|].
    apply length_not_nil. unfold getPageCount in Hcount, Htwo. lia.
  - rewrite insert_one_entry by (rewrite Hcount; unfold getPageCount; lia).
    rewrite save_pages by (intros E; apply app_eq_nil in E; destruct E as [_ E];
                           discriminate).
    f_equal. rewrite firstn_app, skipn_app, firstn_firstn, length_firstn.
    replace (Nat.min (Z.to_nat i) (Z.to_nat i)) with (Z.to_nat i) by lia.
    replace (Z.to_nat i - Nat.min (Z.to_nat i) (length D))%nat with 0%nat by lia.
    rewrite (@skipn_all2 _ (Z.to_nat i) (firstn (Z.to_nat i) D))
      by (rewrite length_firstn; lia).
    cbn [firstn skipn app]. rewrite app_nil_r.
    rewrite <- (firstn_skipn (Z.to_nat i) D) at 3.
    now rewrite (skipn_nth_error _ _ Hp).
Qed.

Lemma remove_then_insert_restores_witness :
  exists r : Bytes,
    remove (docOf [10; 11; 12]) [1] = Ok r
    /\ getPageCount r = getPageCount (docOf [10; 11; 12]) - 1
    /\ insert r [ {| insPdf := [pageOf 11]; insPosition := 1 |} ]
       = Ok (docOf [10; 11; 12]).
Proof.
  apply (@remove_then_insert_restores (docOf [10; 11; 12]) 1 (pageOf 11)).
  - unfold getPageCount. simpl. lia.
  - lia.
  - reflexivity.
Defined.

(** X10: with valid positions, and a base that has a page or a non-empty
    list of documents none of which is page-less, [insert] neither loses nor
    duplicates a page: the result holds the pages of the base and of the
    inserted documents, each once, so its page count is the sum of their
    page counts. *)
Theorem insert_keeps_all_pages (base : Bytes) (inserts : list InsertOp) :
  Forall (validPosition base) inserts ->
  base <> [] \/ (inserts <> [] /\ Forall (fun e => insPdf e <> []) inserts) ->
  exists result : Bytes,
    insert base inserts = Ok result
    /\ Permutation result (base ++ concat (map insPdf inserts))
    /\ getPageCount result = getPageCount base + insertedCount inserts.
Proof.
  intros Hv Hpg.
  assert (HP := sort_perm byPosition inserts).
  assert (Hs := sort_byPosition_sorted inserts).
  assert (Hv0 : Forall (fun x => 0 <= insPosition x <= getPageCount base)
                  (sort byPosition inserts)).
  { eapply Permutation_Forall; [symmetry; exact HP|].
    eapply Forall_impl; [|exact Hv]. unfold validPosition. intros; lia. }
  assert (Hperm : Permutation (weave base 0 (sort byPosition inserts))
                    (base ++ concat (map insPdf inserts))).
  { rewrite (@weave_perm base (sort byPosition inserts) 0 Hs Hv0 ltac:(lia)).
    cbn [Z.to_nat skipn]. apply Permutation_app_head.
    rewrite <- !flat_map_concat_map. now apply Permutation_flat_map. }
  assert (Hne : weave base 0 (sort byPosition inserts) <> []).
  { apply weave_not_nil; [exact Hs | exact Hv0 |].
    destruct Hpg as [Hb|[Hi Hd]]; [now left | right]. split.
    - intros E. apply Hi. apply Permutation_nil. rewrite <- E. exact HP.
    - eapply Permutation_Forall; [symmetry; exact HP | exact Hd]. }
  exists (weave base 0 (sort byPosition inserts)). split; [|split].
  - rewrite insert_closed_form by (destruct Hpg as [Hb|[_ Hd]]; [now left | now right]).
    replace (forallb (validPositionb base) inserts) with true;
      [now rewrite save_pages|].
    symmetry. apply forallb_forall. rewrite Forall_forall in Hv.
    intros x Hx. specialize (Hv _ Hx). unfold validPosition in Hv.
    unfold validPositionb. apply andb_true_iff. split; apply Z.leb_le; lia.
  - exact Hperm.
  - unfold getPageCount, insertedCount.
    rewrite (Permutation_length Hperm), length_app. lia.
Qed.

Lemma insert_keeps_all_pages_witness :
  exists result : Bytes,
    insert (docOf [10; 11])
      [ {| insPdf := docOf [20; 21]; insPosition := 2 |};
        {| insPdf := docOf [30]; insPosition := 0 |} ]
    = Ok result
    /\ Permutation result (docOf [10; 11] ++ docOf [20; 21] ++ docOf [30] ++ [])
    /\ getPageCount result = 2 + 3.
Proof.
  apply (@insert_keeps_all_pages (docOf [10; 11])
           [ {| insPdf := docOf [20; 21]; insPosition := 2 |};
             {| insPdf := docOf [30]; insPosition := 0 |} ]).
  - repeat constructor; unfold getPageCount; simpl; lia.
  - left. discriminate.
Defined.

Lemma NoDup_map_inj (A B : Type) (f : A -> B) (l : list A) :
  NoDup (map f l) ->
  forall x y, In x l -> In y l -> f x = f y -> x = y.
Proof.
  induction l as [|a l IH]; intros Hnd x y Hx Hy E; [contradiction|].
  cbn [map] in Hnd. inversion Hnd as [|? ? Hnotin Hnd']; subst.
  destruct Hx as [->|Hx], Hy as [->|Hy]; trivial.
  - exfalso. apply Hnotin. rewrite E. now apply in_map.
  - exfalso. apply Hnotin. rewrite <- E. now apply in_map.
  - now apply IH.
Qed.

(** X11: when no two entries have the same position, the order in which the
    entries are given to [insert] does not matter. *)
Theorem insert_order_irrelevant (base : Bytes) (inserts inserts' : list InsertOp) :
  NoDup (map insPosition inserts) ->
  Permutation inserts inserts' ->
  insert base inserts = insert base inserts'.
Proof.
  intros Hnd HP. unfold insert.
  replace (sort byPosition inserts') with (sort byPosition inserts); [reflexivity|].
  apply (@sorted_perm_eq InsertOp insPosition).
  - intros x y Hx Hy. apply (@NoDup_map_inj _ _ insPosition inserts Hnd);
      apply Permutation_in with (sort byPosition inserts);
      trivial; apply sort_perm.
  - apply sort_byPosition_sorted.
  - apply sort_byPosition_sorted.
  - rewrite (sort_perm byPosition inserts), (sort_perm byPosition inserts'). exact HP.
Qed.

Lemma insert_order_irrelevant_witness :
  insert (docOf [10; 11])
    [ {| insPdf := docOf [20]; insPosition := 2 |};
      {| insPdf := docOf [30]; insPosition := 0 |} ]
  = insert (docOf [10; 11])
      [ {| insPdf := docOf [30]; insPosition := 0 |};
        {| insPdf := docOf [20]; insPosition := 2 |} ].
Proof.
  apply insert_order_irrelevant.
  - repeat constructor; simpl; intuition discriminate.
  - apply perm_swap.
Defined.

(** ** rotate *)

Lemma rotatedFrom_overwrite (pages : list Page) (k : Z) (sel : Z -> bool) (a1 a2 : Z) :
  rotatedFrom k sel a2 (rotatedFrom k sel a1 pages) = rotatedFrom k sel a2 pages.
Proof.
  revert k. induction pages as [|p rest IH]; intros k; cbn [rotatedFrom]; [reflexivity|].
  rewrite IH. destruct (sel k); reflexivity.
Qed.

Lemma rotatedFrom_content (pages : list Page) (k : Z) (sel : Z -> bool) (angle : Z) :
  map content (rotatedFrom k sel angle pages) = map content pages.
Proof.
  revert k. induction pages as [|p rest IH]; intros k; cbn [rotatedFrom map]; [reflexivity|].
  rewrite IH. destruct (sel k); reflexivity.
Qed.

(** X12: a successful [rotate] changes nothing but rotations: the pages keep
    their content and order, and each page either keeps its rotation or gets
    one of 0, 90, 180, 270. *)
Theorem rotate_keeps_content (D D' : Bytes) (degrees : Z)
  (pageNumbers : option (list Z)) :
  rotate D degrees pageNumbers = Ok D' ->
  map content D' = map content D
  /\ forall (n : nat) (p p' : Page),
       nth_error D n = Some p ->
       nth_error D' n = Some p' ->
       rotation p' = rotation p
       \/ rotation p' = 0 \/ rotation p' = 90
       \/ rotation p' = 180 \/ rotation p' = 270.
Proof.
  intros H. apply rotate_Ok_inv in H. destruct H as (Hd & _ & _ & ->).
  split; [apply rotatedFrom_content|].
  intros n p p' Hp Hp'. rewrite (@rotatedFrom_nth _ 0 _ _ _ _ Hp) in Hp'.
  injection Hp' as <-. destruct (selected pageNumbers _); [|now left].
  right. cbn [setRotation rotation].
  apply multiple_of_90_rem in Hd. destruct Hd as (k & ->).
  assert (Hb := Z.mod_pos_bound (90 * k) 360).
  assert (E := Z.div_mod (90 * k) 360). lia.
Qed.

Lemma rotate_keeps_content_witness :
  map content [ {| content := 10; rotation := 180 |}; pageOf 11 ] = map content (docOf [10; 11]).
Proof.
  refine (proj1 (@rotate_keeps_content (docOf [10; 11])
                   [ {| content := 10; rotation := 180 |}; pageOf 11 ]
                   (-180) (Some [0]) _)).
  reflexivity.
Defined.

Lemma multiple_of_90_shift (degrees k : Z) :
  (Z.rem (degrees + 360 * k) 90 =? 0) = (Z.rem degrees 90 =? 0).
Proof.
  apply eq_true_iff_eq. rewrite !Z.eqb_eq, !multiple_of_90_rem.
  split; intros (j & Hj).
  - exists (j - 4 * k). lia.
  - exists (j + 4 * k). lia.
Qed.

(** X13: whole turns do not count: [rotate] with [degrees + 360 * k] behaves
    as with [degrees] (so -90 is 270, 450 is 90), result or error. *)
Theorem rotate_whole_turns (D : Bytes) (degrees k : Z) (pageNumbers : option (list Z)) :
  rotate D (degrees + 360 * k) pageNumbers = rotate D degrees pageNumbers.
Proof.
  destruct (Z.eqb_spec (Z.rem degrees 90) 0) as [Hd|Hd].
  - assert (Hd' : Z.rem (degrees + 360 * k) 90 = 0)
      by (apply Z.eqb_eq; rewrite multiple_of_90_shift; now apply Z.eqb_eq).
    destruct D as [|p0 rest].
    + unfold rotate. rewrite Hd, Hd'. reflexivity.
    + rewrite !rotate_closed_form by (trivial; discriminate).
      replace ((degrees + 360 * k) mod 360) with (degrees mod 360); [reflexivity|].
      symmetry. rewrite (Z.mul_comm 360 k). apply Z_mod_plus_full.
  - unfold rotate. rewrite multiple_of_90_shift.
    replace (Z.rem degrees 90 =? 0) with false
      by (symmetry; now apply Z.eqb_neq).
    reflexivity.
Qed.

(** X14: the last rotation wins: after a successful [rotate], rotating the
    same selection with other valid degrees gives what rotating the original
    document with those degrees gives. *)
Theorem rotate_last_wins (D D1 : Bytes) (d1 d2 : Z) (pageNumbers : option (list Z)) :
  rotate D d1 pageNumbers = Ok D1 ->
  Z.rem d2 90 = 0 ->
  rotate D1 d2 pageNumbers = rotate D d2 pageNumbers.
Proof.
  intros H1 Hd2. apply rotate_Ok_inv in H1. destruct H1 as (Hd1 & Hne & Hsel & ->).
  rewrite !rotate_closed_form; trivial.
  - replace (invalidSelection (rotatedFrom 0 (selected pageNumbers) (d1 mod 360) D)
               pageNumbers)
      with (invalidSelection D pageNumbers).
    + now rewrite rotatedFrom_overwrite.
    + unfold invalidSelection, getPageCount. now rewrite rotatedFrom_length.
  - intros E. apply (f_equal (@length Page)) in E.
    rewrite rotatedFrom_length in E. destruct D; [congruence|discriminate].
Qed.

Lemma rotate_last_wins_witness :
  rotate [ {| content := 10; rotation := 90 |}; {| content := 11; rotation := 90 |} ]
    180 None
  = rotate (docOf [10; 11]) 180 None.
Proof.
  apply (@rotate_last_wins (docOf [10; 11]) _ 90 180 None); reflexivity.
Defined.

(** ** move *)

Lemma placeAt_dropAt (D : list Page) (a : nat) (page : Page) :
  nth_error D a = Some page -> placeAt a page (dropAt a D) = D.
Proof.
  intros Hp. assert (Hlen : (a < length D)%nat) by (apply nth_error_Some; congruence).
  unfold placeAt, dropAt.
  rewrite firstn_app, skipn_app, firstn_firstn, length_firstn.
  replace (Nat.min a a) with a by lia.
  replace (a - Nat.min a (length D))%nat with 0%nat by lia.
  rewrite (@skipn_all2 _ a (firstn a D)) by (rewrite length_firstn; lia).
  cbn [firstn skipn app]. rewrite app_nil_r.
  rewrite <- (firstn_skipn a D) at 3. now rewrite (skipn_nth_error _ _ Hp).
Qed.

Lemma placeAt_not_nil (w : list Page) (a : nat) (page : Page) :
  placeAt a page w <> [].
Proof. unfold placeAt. intros E. symmetry in E. now apply app_cons_not_nil in E. Qed.

Lemma move_same_index (D : Bytes) (k : Z) :
  validIndex D k -> move D k k = Ok D.
Proof.
  intros Hk. unfold validIndex in Hk. unfold move, load.
  replace ((k <? 0) || (k >=? getPageCount D)
           || (k <? 0) || (k >=? getPageCount D)) with false.
  - rewrite Z.eqb_refl, save_pages; [reflexivity|].
    apply length_not_nil. unfold getPageCount in Hk. lia.
  - symmetry. rewrite !Z.geb_leb.
    repeat (apply orb_false_iff; split);
      first [apply Z.ltb_ge; lia | apply Z.leb_gt; lia].
Qed.

Lemma move_slot (w : list Page) (page : Page) (a : nat) (to : Z) :
  (a <= length w)%nat ->
  0 <= to <= Z.of_nat (length w) ->
  Z.of_nat a <> to ->
  move (placeAt a page w) (Z.of_nat a) to
  = Ok (placeAt (Z.to_nat (if Z.of_nat a <? to then to - 1 else to)) page w).
Proof.
  intros Ha Hto Hne.
  destruct (@insert_remove_at w a page Ha) as (Hlen & Hnth & Hdrop).
  fold (placeAt a page w) in Hlen, Hnth, Hdrop.
  unfold move, load.
  replace ((Z.of_nat a <? 0) || (Z.of_nat a >=? getPageCount (placeAt a page w))
           || (to <? 0) || (to >=? getPageCount (placeAt a page w))) with false.
  2:{ symmetry. unfold getPageCount. rewrite Hlen, !Z.geb_leb.
      repeat (apply orb_false_iff; split);
        first [apply Z.ltb_ge; lia | apply Z.leb_gt; lia]. }
  replace (Z.of_nat a =? to) with false by (symmetry; now apply Z.eqb_neq).
  rewrite (getPage_nth _ _ Hnth), bind_Ok.
  unfold removePage, getPageCount. rewrite Hlen, inRange_true by lia.
  rewrite Nat2Z.id, Hdrop, bind_Ok.
  unfold insertPage, getPageCount. rewrite inRange_true.
  - cbn [bind].
    fold (placeAt (Z.to_nat (if Z.of_nat a <? to then to - 1 else to)) page w).
    now rewrite (save_pages (@placeAt_not_nil _ _ _)).
  - destruct (Z.ltb_spec (Z.of_nat a) to); lia.
Qed.

Lemma move_closed_form (D : Bytes) (from to : Z) (page : Page) :
  validIndex D from ->
  validIndex D to ->
  from <> to ->
  nth_error D (Z.to_nat from) = Some page ->
  move D from to
  = Ok (placeAt (Z.to_nat (if from <? to then to - 1 else to)) page
          (dropAt (Z.to_nat from) D)).
Proof.
  unfold validIndex, getPageCount. intros Hf Ht Hne Hp.
  assert (Hlen : length (dropAt (Z.to_nat from) D) = (length D - 1)%nat).
  { unfold dropAt. rewrite length_app, length_firstn, length_skipn. lia. }
  rewrite <- (placeAt_dropAt _ _ Hp) at 1.
  rewrite <- (Z2Nat.id from) at 2 3 by lia.
  rewrite move_slot; rewrite ?Z2Nat.id; try lia. reflexivity.
Qed.

(** X15: moving a page to the index just after its own changes nothing:
    [to] names the page before which the moved page is put, counted before
    the removal. *)
Theorem move_to_next_is_noop (D : Bytes) (k : Z) :
  validIndex D k ->
  validIndex D (k + 1) ->
  move D k (k + 1) = Ok D.
Proof.
  intros Hk Hk1. unfold validIndex, getPageCount in Hk.
  destruct (nth_error D (Z.to_nat k)) as [page|] eqn:Hp;
    [|apply nth_error_None in Hp; lia].
  rewrite (move_closed_form Hk Hk1 ltac:(lia) Hp).
  replace (k <? k + 1) with true by (symmetry; apply Z.ltb_lt; lia).
  replace (k + 1 - 1) with k by lia. now rewrite placeAt_dropAt.
Qed.

Lemma move_to_next_is_noop_witness :
  move (docOf [10; 11; 12]) 0 1 = Ok (docOf [10; 11; 12]).
Proof.
  apply move_to_next_is_noop; unfold validIndex, getPageCount; simpl; lia.
Defined.

Lemma placeAt_perm (w : list Page) (a : nat) (page : Page) :
  Permutation (placeAt a page w) (page :: w).
Proof.
  unfold placeAt. rewrite <- (firstn_skipn a w) at 3.
  symmetry. apply Permutation_middle.
Qed.

(** X16: with valid indices [move] never fails and neither loses nor
    duplicates a page: the result is a rearrangement of the document. *)
Theorem move_rearranges (D : Bytes) (from to : Z) :
  validIndex D from ->
  validIndex D to ->
  exists r : Bytes,
    move D from to = Ok r /\ Permutation r D /\ getPageCount r = getPageCount D.
Proof.
  intros Hf Ht.
  assert (Hsame : move D from from = Ok D) by now apply move_same_index.
  destruct (Z.eq_dec from to) as [<-|Hne]; [exists D; auto|].
  assert (Hf' := Hf). unfold validIndex, getPageCount in Hf'.
  destruct (nth_error D (Z.to_nat from)) as [page|] eqn:Hp;
    [|apply nth_error_None in Hp; lia].
  rewrite (move_closed_form Hf Ht Hne Hp). eexists. split; [reflexivity|].
  assert (HP : Permutation
                 (placeAt (Z.to_nat (if from <? to then to - 1 else to)) page
                    (dropAt (Z.to_nat from) D)) D).
  { rewrite placeAt_perm. rewrite <- (placeAt_dropAt _ _ Hp) at 2.
    symmetry. apply placeAt_perm. }
  split; [exact HP|]. unfold getPageCount. now rewrite (Permutation_length HP).
Qed.

Lemma move_rearranges_witness :
  exists r : Bytes,
    move (docOf [10; 11; 12]) 2 0 = Ok r
    /\ Permutation r (docOf [10; 11; 12])
    /\ getPageCount r = getPageCount (docOf [10; 11; 12]).
Proof.
  apply move_rearranges; unfold validIndex, getPageCount; simpl; lia.
Defined.

(** X17: a move can be taken back by one move: after moving a page forward
    ([from < to]) moving it from [to - 1] to [from] restores the document;
    after moving it backward ([to < from]) moving it from [to] to [from + 1]
    does, provided [from] was not the last page. *)
Theorem move_undo (D : Bytes) (from to : Z) :
  validIndex D from ->
  validIndex D to ->
  (from < to ->
   (r <- move D from to ;; move r (to - 1) from) = Ok D)
  /\ (to < from -> validIndex D (from + 1) ->
      (r <- move D from to ;; move r to (from + 1)) = Ok D).
Proof.
  intros Hf Ht. assert (Hf' := Hf). assert (Ht' := Ht).
  unfold validIndex, getPageCount in Hf', Ht'.
  destruct (nth_error D (Z.to_nat from)) as [page|] eqn:Hp;
    [|apply nth_error_None in Hp; lia].
  assert (Hlen : length (dropAt (Z.to_nat from) D) = (length D - 1)%nat).
  { unfold dropAt. rewrite length_app, length_firstn, length_skipn. lia. }
  split.
  - intros Hlt. rewrite (move_closed_form Hf Ht ltac:(lia) Hp), bind_Ok.
    replace (from <? to) with true by (symmetry; apply Z.ltb_lt; lia).
    destruct (Z.eq_dec (to - 1) from) as [E|E].
    + rewrite E, placeAt_dropAt by assumption.
      now apply move_same_index.
    + rewrite <- (Z2Nat.id (to - 1)) at 2 by lia.
      rewrite move_slot by lia. rewrite Z2Nat.id by lia.
      replace (to - 1 <? from) with false by (symmetry; apply Z.ltb_ge; lia).
      now rewrite placeAt_dropAt.
  - intros Hlt Hf1. unfold validIndex, getPageCount in Hf1.
    rewrite (move_closed_form Hf Ht ltac:(lia) Hp), bind_Ok.
    replace (from <? to) with false by (symmetry; apply Z.ltb_ge; lia).
    rewrite <- (Z2Nat.id to) at 2 by lia.
    rewrite move_slot by lia. rewrite Z2Nat.id by lia.
    replace (to <? from + 1) with true by (symmetry; apply Z.ltb_lt; lia).
    replace (from + 1 - 1) with from by lia.
    now rewrite placeAt_dropAt.
Qed.

Lemma move_undo_witness :
  (r <- move (docOf [10; 11; 12; 13]) 0 3 ;; move r (3 - 1) 0)
  = Ok (docOf [10; 11; 12; 13])
  /\ (r <- move (docOf [10; 11; 12; 13]) 2 0 ;; move r 0 (2 + 1))
     = Ok (docOf [10; 11; 12; 13]).
Proof.
  split.
  - apply (proj1 (@move_undo (docOf [10; 11; 12; 13]) 0 3
                    ltac:(unfold validIndex, getPageCount; simpl; lia)
                    ltac:(unfold validIndex, getPageCount; simpl; lia))).
    lia.
  - apply (proj2 (@move_undo (docOf [10; 11; 12; 13]) 2 0
                    ltac:(unfold validIndex, getPageCount; simpl; lia)
                    ltac:(unfold validIndex, getPageCount; simpl; lia))).
    + lia.
    + unfold validIndex, getPageCount; simpl; lia.
Defined.

(** ** split on a document without pages *)

(** X18: a document without pages cannot be split: every range, also the
    default one, is invalid for it, so [split] always throws. *)
Theorem split_empty_document (ranges : list Range) :
  split [] ranges
  = match ranges with
    | [] => Throw ErrNoRanges
    | _ => Throw ErrInvalidRange
    end.
Proof.
  destruct ranges as [|r rest]; [reflexivity|].
  unfold split, load, getPages.
  change (Z.of_nat (length (@nil Page))) with (getPageCount []).
  rewrite splitLoop_all_or_nothing. cbn [forallb].
  replace (validRange (getPageCount []) r) with false; [reflexivity|].
  symmetry. unfold validRange, getPageCount. cbn [length Z.of_nat].
  destruct (Z.leb_spec 0 (startOf r)); [|reflexivity].
  destruct (Z.leb_spec (startOf r) (endOf 0 r)); [|reflexivity].
  cbn [andb]. apply Z.ltb_ge. lia.
Qed.

(** ** organize *)

Lemma bind_assoc (A B C : Type) (r : Result A) (f : A -> Result B) (g : B -> Result C) :
  bind (bind r f) g = bind r (fun a => bind (f a) g).
Proof. destruct r; reflexivity. Qed.

Lemma organizeLoop_app (actions more : list OrganizeAction) (currentPdf : t) :
  organizeLoop currentPdf (actions ++ more)
  = (r <- organizeLoop currentPdf actions ;; organizeLoop r more).
Proof.
  revert currentPdf. induction actions as [|a rest IH]; intros currentPdf; [reflexivity|].
  cbn [app organizeLoop]. rewrite bind_assoc.
  destruct (match a with
            | ActRemove _ => _ | ActInsert _ _ => _ | ActReplace _ _ => _
            | ActRotate _ _ => _ | ActMove _ _ => _
            end) as [next|e]; cbn [bind]; [apply IH | reflexivity].
Qed.

Lemma organizeLoop_save (currentPdf : t) (b : OrganizeAction)
  (more : list OrganizeAction) :
  organizeLoop (save currentPdf) (b :: more) = organizeLoop currentPdf (b :: more).
Proof. cbn [organizeLoop]. now rewrite save_save. Qed.

(** X19: [organize] composes: running a non-empty list of actions and then a
    second non-empty list on the result is running the two lists as one; an
    error in the first part is the error of the whole. *)
Theorem organize_composes (D : Bytes) (a b : OrganizeAction)
  (actions more : list OrganizeAction) :
  organize D ((a :: actions) ++ (b :: more))
  = (r <- organize D (a :: actions) ;; organize r (b :: more)).
Proof.
  change (organize D ((a :: actions) ++ b :: more))
    with (currentPdf <- organizeLoop (load D) ((a :: actions) ++ b :: more) ;;
          Ok (save currentPdf)).
  rewrite organizeLoop_app. unfold organize, load.
  destruct (organizeLoop D (a :: actions)) as [r|e]; cbn [bind]; [|reflexivity].
  now rewrite organizeLoop_save.
Qed.

(** X20: for a document of at least two pages, the [replace] action puts
    the pages of the given document exactly in the slot of the page at a
    valid [position]: the pages before and after it are unchanged. *)
Theorem organize_replace (D pdf : Bytes) (position : Z) :
  2 <= getPageCount D ->
  validIndex D position ->
  organize D [ActReplace pdf position]
  = Ok (firstn (Z.to_nat position) D ++ pdf ++ skipn (S (Z.to_nat position)) D).
Proof.
  intros Htwo Hv. assert (Hv' := Hv). unfold validIndex, getPageCount in Hv'.
  unfold getPageCount in Htwo.
  assert (Hlen : length (firstn (Z.to_nat position) D
                         ++ skipn (S (Z.to_nat position)) D)
                 = (length D - 1)%nat).
  { rewrite length_app, length_firstn, length_skipn. lia. }
  unfold organize, load. cbn [organizeLoop]. unfold load.
  rewrite save_pages by (apply length_not_nil; lia).
  rewrite (remove_single Hv), bind_Ok.
  rewrite save_pages by (apply length_not_nil; lia).
  rewrite insert_one_entry by (unfold getPageCount; lia).
  cbn [bind]. rewrite save_save.
  rewrite firstn_app, skipn_app, firstn_firstn, length_firstn.
  replace (Nat.min (Z.to_nat position) (Z.to_nat position))
    with (Z.to_nat position) by lia.
  replace (Z.to_nat position - Nat.min (Z.to_nat position) (length D))%nat
    with 0%nat by lia.
  rewrite (@skipn_all2 _ (Z.to_nat position) (firstn (Z.to_nat position) D))
    by (rewrite length_firstn; lia).
  rewrite firstn_O, skipn_O. cbn [app]. rewrite app_nil_r. f_equal.
  apply save_pages. apply length_not_nil.
  rewrite !length_app, length_firstn, length_skipn. lia.
Qed.

Lemma organize_replace_witness :
  organize (docOf [10; 11; 12]) [ActReplace (docOf [20; 21]) 1]
  = Ok (docOf [10; 20; 21; 12]).
Proof.
  apply (@organize_replace (docOf [10; 11; 12]) (docOf [20; 21]) 1).
  - unfold getPageCount. simpl. lia.
  - unfold validIndex, getPageCount. simpl. lia.
Defined.

(** ** Instances of the properties above *)

Lemma split_then_merge_witness :
  exists pieces : list Bytes,
    split (docOf [10; 11; 12; 13; 14])
      [ {| rangeStart := None; rangeEnd := Some 1 |};
        {| rangeStart := Some 2; rangeEnd := None |} ]
    = Ok pieces
    /\ length pieces = 2%nat
    /\ merge tt renderEach pieces noOptions = Ok (docOf [10; 11; 12; 13; 14]).
Proof.
  apply (@split_then_merge Z unit tt renderEach (docOf [10; 11; 12; 13; 14])).
  - discriminate.
  - cbn. repeat split; lia.
Defined.

(** ** Further compositions and edge cases *)

(** X21: an empty page list given to [rotate] selects no page: with valid
    degrees and a document that has pages the document is returned as it is,
    whereas an omitted list selects every page. *)
Theorem rotate_empty_selection (D : Bytes) (degrees : Z) :
  Z.rem degrees 90 = 0 ->
  D <> [] ->
  rotate D degrees (Some []) = Ok D
  /\ rotate D degrees None
     = Ok (map (fun p => setRotation p (degrees mod 360)) D).
Proof.
  intros Hd Hne. rewrite !rotate_closed_form by assumption.
  cbn [invalidSelection existsb]. split.
  - rewrite (@rotatedFrom_ext D 0 (selected (Some [])) (fun _ => false))
      by reflexivity.
    now rewrite rotatedFrom_none.
  - apply f_equal. clear Hne. generalize 0.
    induction D as [|p rest IH]; intros k; cbn [rotatedFrom map selected];
      [reflexivity|].
    f_equal. apply IH.
Qed.

Lemma rotate_empty_selection_witness :
  rotate (docOf [10; 11]) 90 (Some []) = Ok (docOf [10; 11])
  /\ rotate (docOf [10; 11]) 90 None
     = Ok (map (fun p => setRotation p (90 mod 360)) (docOf [10; 11])).
Proof.
  apply rotate_empty_selection; [reflexivity | discriminate].
Defined.

Section MergeAdvancedParts.

Variable Template : Type.
Variable Input : Type.
Variable emptyInput : Input.
Variable generate : Template -> list Input -> Result Bytes.

Lemma collectPages_acc (items : list (MergeItem Template Input)) (acc : list Page) :
  collectPages emptyInput generate items acc
  = (pages <- collectPages emptyInput generate items [] ;; Ok (acc ++ pages)).
Proof.
  revert acc. induction items as [|item rest IH]; intros acc.
  - cbn. now rewrite app_nil_r.
  - cbn [collectPages].
    destruct (itemPages emptyInput generate item) as [ps|e]; cbn [bind app];
      [|reflexivity].
    rewrite (IH (acc ++ ps)), (IH ps).
    destruct (collectPages emptyInput generate rest []) as [more|e]; cbn [bind];
      [|reflexivity].
    now rewrite app_assoc.
Qed.

Lemma collectPages_app (items more : list (MergeItem Template Input)) (acc : list Page) :
  collectPages emptyInput generate (items ++ more) acc
  = (pages <- collectPages emptyInput generate items acc ;;
     collectPages emptyInput generate more pages).
Proof.
  revert acc. induction items as [|item rest IH]; intros acc; [reflexivity|].
  cbn [app collectPages].
  destruct (itemPages emptyInput generate item) as [ps|e]; cbn [bind];
    [apply IH | reflexivity].
Qed.

(** X22: when each of two non-empty parts of a list of items, documents
    or templates, yields at least one page, [mergeAdvanced] of the whole
    list is the concatenation of what it returns for the first part and for
    the second; the first failing item fails the call. *)
Theorem mergeAdvanced_of_parts (a b : MergeItem Template Input)
  (items more : list (MergeItem Template Input)) (o1 o2 o3 : MergeOptions) :
  (forall pages, collectPages emptyInput generate (a :: items) [] = Ok pages ->
                 pages <> []) ->
  (forall pages, collectPages emptyInput generate (b :: more) [] = Ok pages ->
                 pages <> []) ->
  mergeAdvanced emptyInput generate ((a :: items) ++ (b :: more)) o1
  = (first <- mergeAdvanced emptyInput generate (a :: items) o2 ;;
     second <- mergeAdvanced emptyInput generate (b :: more) o3 ;;
     Ok (first ++ second)).
Proof.
  intros H1 H2. destruct o1 as [p1], o2 as [p2], o3 as [p3].
  change ((a :: items) ++ b :: more) with (a :: (items ++ b :: more)).
  rewrite !mergeAdvanced_batch.
  change (a :: (items ++ b :: more)) with ((a :: items) ++ b :: more).
  rewrite collectPages_app.
  destruct (collectPages emptyInput generate (a :: items) []) as [first|e] eqn:E1;
    cbn [bind]; [|reflexivity].
  assert (Hf : first <> []) by now apply H1.
  rewrite (collectPages_acc (b :: more) first).
  destruct (collectPages emptyInput generate (b :: more) []) as [second|e] eqn:E2;
    cbn [bind]; [|reflexivity].
  assert (Hsnd : second <> []) by now apply H2.
  now rewrite (save_pages Hf), (save_pages Hsnd), (save_app_l second Hf).
Qed.

End MergeAdvancedParts.

Lemma mergeAdvanced_of_parts_witness :
  mergeAdvanced tt renderEach
    ([PdfItem (docOf [1; 2]) (Some [1])] ++ [TemplateItem 9 (Some [tt])]) noOptions
  = (first <- mergeAdvanced tt renderEach [PdfItem (docOf [1; 2]) (Some [1])] noOptions ;;
     second <- mergeAdvanced tt renderEach [TemplateItem 9 (Some [tt])] noOptions ;;
     Ok (first ++ second)).
Proof.
  apply (@mergeAdvanced_of_parts Z unit tt renderEach).
  - intros pages H. cbn in H. injection H as <-. discriminate.
  - intros pages H. cbn in H. injection H as <-. discriminate.
Defined.





Lemma mergeWithTemplates_appends_renderings_witness :
  mergeWithTemplates tt renderEach (docOf [1; 2])
    [ {| entryTemplate := 8; entryInputs := Some [tt]; entryPosition := Some (PIndex 0) |};
      {| entryTemplate := 9; entryInputs := None; entryPosition := None |} ]
  = (rendered <- renderEntries tt renderEach
       [ {| entryTemplate := 8; entryInputs := Some [tt];
            entryPosition := Some (PIndex 0) |};
         {| entryTemplate := 9; entryInputs := None; entryPosition := None |} ] ;;
     Ok (docOf [1; 2] ++ rendered)).
Proof.
  apply (@mergeWithTemplates_appends_renderings Z unit tt renderEach).
  left. discriminate.
Defined.

Lemma merge_of_merge_witness :
  (merged <- merge tt renderEach [docOf [1]; docOf [2; 3]] noOptions ;;
   merge tt renderEach [merged; docOf [4]] noOptions)
  = merge tt renderEach ([docOf [1]; docOf [2; 3]] ++ [docOf [4]]) noOptions.
Proof.
  apply (@merge_of_merge Z unit tt renderEach (docOf [1]) [docOf [2; 3]] [docOf [4]]).
  discriminate.
Defined.

(** Without a page in the base a page-less rendering is not simply appended:
    the call returns the blank page. *)
Lemma mergeWithTemplates_pageless_rendering :
  mergeWithTemplates tt (fun (_ : Z) (_ : list unit) => Ok [])
    [] [ {| entryTemplate := 9; entryInputs := None; entryPosition := None |} ]
  = Ok [blankPage].
Proof. reflexivity. Qed.
